(** * The model-decoder code generator ([model/modeldecoder/generator/code.go])

    A shallow embedding of [CodeGenerator] and of the methods it emits text
    with ([Generate], [generate], [generateIsSet], [generateReset],
    [generateValidation]) together with the naming helpers ([jsonName],
    [parseTag], [flattenName], [sortKeys]).

    Go strings are byte strings and are modelled by [string]; the output
    [bytes.Buffer] is the string of everything written so far; a Go [error]
    is modelled by its message, [nil] by [None]. *)

From Stdlib Require Import Ascii String List Lia.
From stdpp Require Import base decidable option list sorting gmap sets strings.

Local Open Scope string_scope.

(** ** Strings *)

Module Str.

Definition nl : string := String "010"%char EmptyString.
Definition tab : string := String "009"%char EmptyString.
Definition dquote : string := String "034"%char EmptyString.

(** Lower-casing of ASCII strings: the letters [A]..[Z] are moved to
    [a]..[z], every other byte is kept. On a string of ASCII bytes this is
    what [strings.ToLower] returns; it is used for the sample inputs, whose
    identifiers are ASCII. *)
Definition lowerByte (c : ascii) : ascii :=
  let n := nat_of_ascii c in
  if (65 <=? n)%nat && (n <=? 90)%nat then ascii_of_nat (n + 32) else c.

Fixpoint asciiToLower (s : string) : string :=
  match s with
  | EmptyString => EmptyString
  | String c s' => String (lowerByte c) (asciiToLower s')
  end.

(** [strings.Split(s, ",")]: the pieces of [s] between the commas; a
    string with [n] commas has [n + 1] pieces, so the result is never
    empty. *)
Fixpoint Split (s : string) : list string :=
  match s with
  | EmptyString => [EmptyString]
  | String c s' =>
      if Ascii.eqb c ","%char then EmptyString :: Split s'
      else match Split s' with
           | p :: ps => String c p :: ps
           | [] => [String c EmptyString]
           end
  end.

(** [strings.Join(l, sep)] *)
Fixpoint Join (sep : string) (l : list string) : string :=
  match l with
  | [] => EmptyString
  | [x] => x
  | x :: rest => x +:+ sep +:+ Join sep rest
  end.

End Str.

Import Str.

(** [strings.ToLower] of the Go library maps every Unicode upper-case
    letter of its argument to lower case. It is not defined here: the
    development takes it as a parameter, so that what is proved holds of
    the library function whatever the identifiers are. *)
Class GoStrings : Type := { ToLower : string → string }.

(** ** Errors

    [fmt.Errorf] builds an error from its message; [errors.Wrap(err, msg)]
    of [github.com/pkg/errors] yields an error whose message is
    [msg + ": " + err.Error()]. *)

Definition error : Type := string.

Definition Wrap (err : error) (message : string) : error :=
  message +:+ ": " +:+ err.

(** ** Go types, as far as the generator looks at them

    A [types.Type] is used through [String()] and through a type switch on
    [Underlying()], which tells slices, maps and structs from everything
    else; of a slice or a map only [Elem()] is read. [dynType] is what
    [%T] prints for any other underlying type. *)

Inductive gotype : Type :=
  | GoType (str : string) (under : underlying)
with underlying : Type :=
  | Slice (elem : gotype)
  | Map (elem : gotype)
  | Struct
  | Other (dynType : string).

Definition TypeString (t : gotype) : string :=
  match t with GoType s _ => s end.

Definition Underlying (t : gotype) : underlying :=
  match t with GoType _ u => u end.

(** [reflect.StructTag]: the [key:"value"] pairs of a field tag in the
    order they are written; [Lookup] returns the value of the first pair
    with the key. *)
Definition StructTag : Type := list (string * string).

Fixpoint Lookup (structTag : StructTag) (key : string) : option string :=
  match structTag with
  | [] => None
  | (k, v) :: rest => if String.eqb k key then Some v else Lookup rest key
  end.

(** [structField], [structType] and [Parsed] are declared in the parser
    file of the package; the records below have the members this file
    reads. [structField] embeds a [*types.Var] ([Name()], [Type()],
    [Exported()], the last of which go/types computes from the first
    letter of the name) and carries the field's tag. *)
Record structField : Type := {
  Name : string;
  Typ : gotype;
  Exported : bool;
  tag : StructTag
}.

Record structType : Type := {
  name : string;
  fields : list structField
}.

Record Parsed : Type := {
  structTypes : gmap string structType;
  patternVariables : gmap string string;
  pkgName : string
}.

Definition anonymousField : string := "_".

(** ** Naming helpers *)

(** A nil slice and an empty slice both have length 0, which is all
    [jsonName] asks of the result; both are the empty list here. *)
Definition parseTag (structTag : StructTag) (tagName : string) : list string :=
  match Lookup structTag tagName with
  | None => []
  | Some tag =>
      if String.eqb tag "-" then [] else Split tag
  end.

Section Names.

Context `{GS : GoStrings}.

Definition jsonName (f : structField) : string :=
  match parseTag (tag f) "json" with
  | [] => ToLower (Name f)
  | part :: _ => part
  end.

(** [key += "."] unless [key] is empty. *)
Definition dotted (key : string) : string :=
  if String.eqb key EmptyString then key else key +:+ ".".

Definition flattenName (key : string) (f : structField) : string :=
  dotted key +:+ jsonName f.

End Names.

(** ** The generator *)

Record CodeGenerator : Type := {
  buf : string;
  parsed : Parsed;
  rootObjs : list structType;
  (* keep track of already processed types in case one type is
     referenced multiple times *)
  processedTypes : gset string
}.

(** [fmt.Fprint(&g.buf, s)]: the buffer is append-only. *)
Definition Fprint (s : string) (g : CodeGenerator) : CodeGenerator :=
  {| buf := buf g +:+ s; parsed := parsed g; rootObjs := rootObjs g;
     processedTypes := processedTypes g |}.

(** [g.processedTypes[name] = struct{}{}] *)
Definition markProcessed (n : string) (g : CodeGenerator) : CodeGenerator :=
  {| buf := buf g; parsed := parsed g; rootObjs := rootObjs g;
     processedTypes := {[ n ]} ∪ processedTypes g |}.

Definition customStruct (g : CodeGenerator) (typ : gotype) : option structType :=
  structTypes (parsed g) !! TypeString typ.

(** A method of [*CodeGenerator] that returns an [error]: it leaves the
    generator in a new state whether it fails or not. *)
Definition method : Type := CodeGenerator → option error * CodeGenerator.

Definition andThen (m : method) (k : method) : method :=
  fun g => match m g with
           | (None, g') => k g'
           | (Some err, g') => (Some err, g')
           end.

Definition emit (s : string) : method := fun g => (None, Fprint s g).
Definition fail (err : error) : method := fun g => (Some err, g).
Definition skip : method := fun g => (None, g).

Notation "m >> k" := (andThen m k) (at level 65, right associativity).

(** *** The emitted text, template by template *)

Module Template.

Definition fileHeader (pkg : string) : string :=
  "// Code generated by " +:+ dquote +:+ "modeldecoder/generator" +:+ dquote
    +:+ ". DO NOT EDIT." +:+ nl
    +:+ nl
    +:+ "package " +:+ pkg +:+ nl
    +:+ nl
    +:+ "import (" +:+ nl
    +:+ tab +:+ dquote +:+ "fmt" +:+ dquote +:+ nl
    +:+ tab +:+ dquote +:+ "encoding/json" +:+ dquote +:+ nl
    +:+ tab +:+ dquote +:+ "github.com/pkg/errors" +:+ dquote +:+ nl
    +:+ tab +:+ dquote +:+ "regexp" +:+ dquote +:+ nl
    +:+ tab +:+ dquote +:+ "unicode/utf8" +:+ dquote +:+ nl
    +:+ ")" +:+ nl
    +:+ nl
    +:+ "var (" +:+ nl.

Definition patternVar (n : string) : string :=
  n +:+ "Regexp = regexp.MustCompile(" +:+ n +:+ ")" +:+ nl.

Definition varEnd : string := ")" +:+ nl.

Definition isSetHeader (n : string) : string :=
  nl +:+ "func (val *" +:+ n +:+ ") IsSet() bool {" +:+ nl +:+ tab +:+ "return".

Definition isSetLen (pre f : string) : string :=
  pre +:+ " len(val." +:+ f +:+ ") > 0".

Definition isSetCall (pre f : string) : string :=
  pre +:+ " val." +:+ f +:+ ".IsSet()".

Definition isSetEnd : string := nl +:+ "}" +:+ nl.

Definition resetHeader (n : string) : string :=
  nl +:+ "func (val *" +:+ n +:+ ") Reset() {" +:+ nl.

Definition resetElems (f : string) : string :=
  "for i := range val." +:+ f +:+ "{" +:+ nl
    +:+ tab +:+ "val." +:+ f +:+ "[i].Reset()" +:+ nl
    +:+ "}" +:+ nl.

Definition truncate (f : string) : string :=
  "val." +:+ f +:+ " = val." +:+ f +:+ "[:0]" +:+ nl.

Definition deleteKeys (f : string) : string :=
  "for k := range val." +:+ f +:+ " {" +:+ nl
    +:+ tab +:+ "delete(val." +:+ f +:+ ", k)" +:+ nl
    +:+ "}" +:+ nl.

Definition resetCall (f : string) : string :=
  "val." +:+ f +:+ ".Reset()" +:+ nl.

Definition resetEnd : string := "}" +:+ nl.

Definition validateHeader (n : string) : string :=
  nl +:+ "func (val *" +:+ n +:+ ") validate() error {" +:+ nl.

Definition shortCircuit : string :=
  "if !val.IsSet() {" +:+ nl +:+ tab +:+ "return nil" +:+ nl +:+ "}" +:+ nl.

Definition validateEnd : string := "return nil" +:+ nl +:+ "}" +:+ nl.

End Template.

Import Template.

(** *** [generateIsSet] *)

Section Synthesis.

Context `{GS : GoStrings}.

(** The loop over [structTyp.fields]; [prefix] is the loop's local
    variable of that name. *)
Fixpoint isSetFields (key : string) (fs : list structField) (prefix : string)
  : method :=
  match fs with
  | [] => skip
  | f :: rest =>
      if negb (Exported f) then isSetFields key rest prefix
      else
        match Underlying (Typ f) with
        | Slice _ | Map _ =>
            emit (isSetLen prefix (Name f)) >> isSetFields key rest " ||"
        | Struct =>
            emit (isSetCall prefix (Name f)) >> isSetFields key rest " ||"
        | Other t =>
            fail ("unhandled type " +:+ t +:+ " for IsSet() for '"
                    +:+ key +:+ jsonName f +:+ "'")
        end
  end.

Definition generateIsSet (structTyp : structType) (key : string) : method :=
  if (length (fields structTyp) =? 0)%nat then
    fail ("unhandled struct " +:+ name structTyp
            +:+ " (does not have any exported fields)")
  else
    emit (isSetHeader (name structTyp)) >>
    isSetFields (dotted key) (fields structTyp) EmptyString >>
    emit isSetEnd.

(** *** [generateReset] *)

Definition resetField (key : string) (f : structField) : method :=
  fun g =>
    match Underlying (Typ f) with
    | Slice elem =>
        (* if slice type is a model struct, call its Reset() function *)
        ((match customStruct g elem with
          | Some _ => emit (resetElems (Name f))
          | None => skip
          end) >>
         (* then reset size of slice to 0 *)
         emit (truncate (Name f))) g
    | Map _ => emit (deleteKeys (Name f)) g
    | Struct => emit (resetCall (Name f)) g
    | Other t =>
        fail ("unhandled type " +:+ t +:+ " for Reset() for '"
                +:+ key +:+ jsonName f +:+ "'") g
    end.

Fixpoint resetFields (key : string) (fs : list structField) : method :=
  match fs with
  | [] => skip
  | f :: rest =>
      if negb (Exported f) then resetFields key rest
      else resetField key f >> resetFields key rest
  end.

Definition generateReset (structTyp : structType) (key : string) : method :=
  emit (resetHeader (name structTyp)) >>
  resetFields (dotted key) (fields structTyp) >>
  emit resetEnd.

End Synthesis.

(** *** [generateValidation]

    The rules that emit the checks of one field, and the names of the
    nullable types they are selected by, belong to the generator package
    but not to this file. A rule writes to the [io.Writer] it is given and
    returns an error: it is a function from its arguments to the text
    written and the error returned. *)

Definition validationGenerator : Type :=
  list structField → structField → bool → string * option error.

Class ValidationRules : Type := {
  nullableTypeString : string;
  nullableTypeInt : string;
  nullableTypeFloat64 : string;
  nullableTypeInterface : string;
  generateNullableStringValidation : validationGenerator;
  generateNullableIntValidation : validationGenerator;
  generateNullableInterfaceValidation : validationGenerator;
  generateSliceValidation : validationGenerator;
  generateMapValidation : validationGenerator;
  generateStructValidation : validationGenerator
}.

Definition isKnown (g : CodeGenerator) (typ : gotype) : bool :=
  match customStruct g typ with Some _ => true | None => false end.

Section Validation.

Context `{GS : GoStrings} `{VR : ValidationRules}.

(** The two nested switches of the loop body: the rule for the field and
    the [custom] flag, or the error of the innermost [default]. *)
Definition selectValidation (g : CodeGenerator) (f : structField)
  : validationGenerator * bool + error :=
  let s := TypeString (Typ f) in
  if String.eqb s nullableTypeString then
    inl (generateNullableStringValidation, false)
  else if String.eqb s nullableTypeInt then
    inl (generateNullableIntValidation, false)
  else if String.eqb s nullableTypeFloat64 then
    (* right now we can reuse the validation rules for int *)
    inl (generateNullableIntValidation, false)
  else if String.eqb s nullableTypeInterface then
    inl (generateNullableInterfaceValidation, false)
  else
    match Underlying (Typ f) with
    | Slice elem => inl (generateSliceValidation, isKnown g elem)
    | Map elem => inl (generateMapValidation, isKnown g elem)
    | Struct => inl (generateStructValidation, isKnown g (Typ f))
    | Other t => inr ("unhandled type " +:+ t)
    end.

Definition validateField (key : string) (all : list structField)
    (f : structField) : method :=
  fun g =>
    match selectValidation g f with
    | inr err => fail (Wrap err (flattenName key f)) g
    | inl (validation, custom) =>
        let '(out, err) := validation all f custom in
        match err with
        | Some err => (emit out >> fail (Wrap err (flattenName key f))) g
        | None => emit out g
        end
    end.

Fixpoint validateFields (key : string) (all fs : list structField) : method :=
  match fs with
  | [] => skip
  | f :: rest =>
      if negb (Exported f) && negb (String.eqb (Name f) anonymousField)
      then validateFields key all rest
      else validateField key all f >> validateFields key all rest
  end.

Definition isRoot (g : CodeGenerator) (structTyp : structType) : bool :=
  existsb (fun rootObj => String.eqb (name structTyp) (name rootObj))
          (rootObjs g).

Definition generateValidation (structTyp : structType) (key : string)
  : method :=
  fun g =>
    (emit (validateHeader (name structTyp)) >>
     (if negb (isRoot g structTyp) then emit shortCircuit else skip) >>
     validateFields key (fields structTyp) (fields structTyp) >>
     emit validateEnd) g.

(** *** [generate]

    The recursion follows the references between the types of the schema
    and is cut by [processedTypes] only: it is not structural, so the
    function counts its nesting depth down from [fuel] and answers [None]
    when that is used up. *)

Definition visit : Type :=
  structType → string → CodeGenerator → option (option error * CodeGenerator).

Definition childType (field : structField) : gotype :=
  match Underlying (Typ field) with
  | Map elem => elem
  | Slice elem => elem
  | _ => Typ field
  end.

Fixpoint generateFields (rec : visit) (key : string)
    (fs : list structField) (g : CodeGenerator)
  : option (option error * CodeGenerator) :=
  match fs with
  | [] => Some (None, g)
  | field :: rest =>
      match customStruct g (childType field) with
      | Some child =>
          match rec child (key +:+ jsonName field) g with
          | Some (None, g') => generateFields rec key rest g'
          | stop => stop
          end
      | None => generateFields rec key rest g
      end
  end.

Fixpoint generate (fuel : nat) (st : structType) (key : string)
    (g : CodeGenerator) : option (option error * CodeGenerator) :=
  match fuel with
  | O => None
  | S fuel' =>
      if decide (name st ∈ processedTypes g) then Some (None, g)
      else
        match (generateIsSet st key >>
               generateReset st key >>
               generateValidation st key) (markProcessed (name st) g) with
        | (Some err, g') => Some (Some err, g')
        | (None, g') =>
            generateFields (generate fuel') (dotted key) (fields st) g'
        end
  end.

(** *** [sortKeys] and [Generate]

    [for k := range input] enumerates every key of the map once, in an
    order the language leaves open: [order] is the order of one such
    enumeration. [keys.Sort()] orders strings bytewise. *)

Definition rangeOf (input : gmap string string) (order : list string) : Prop :=
  order ≡ₚ (map_to_list input).*1.

Definition sortKeys (order : list string) : list string :=
  merge_sort String.le order.

Fixpoint generateRoots (rec : visit) (roots : list structType)
    (g : CodeGenerator) : option (option error * CodeGenerator) :=
  match roots with
  | [] => Some (None, g)
  | rootObj :: rest =>
      match rec rootObj EmptyString g with
      | Some (None, g') => generateRoots rec rest g'
      | stop => stop
      end
  end.

Definition writeHeader (order : list string) (g : CodeGenerator)
  : CodeGenerator :=
  let g := Fprint (fileHeader (pkgName (parsed g))) g in
  let g := fold_left (fun g n => Fprint (patternVar n) g) (sortKeys order) g in
  Fprint varEnd g.

(** [Generate] returns the buffer and the error, and leaves the generator
    changed; the third component is the generator afterwards. *)
Definition GenerateWith (fuel : nat) (order : list string)
    (g : CodeGenerator) : option (string * option error * CodeGenerator) :=
  match generateRoots (generate fuel) (rootObjs g) (writeHeader order g) with
  | None => None
  | Some (Some err, g') => Some (buf g', Some (Wrap err "code generator"), g')
  | Some (None, g') => Some (buf g', None, g')
  end.

End Validation.

(** *** [NewCodeGenerator] *)

Fixpoint lookupRoots (p : Parsed) (rootTypes : list string)
  : error + list structType :=
  match rootTypes with
  | [] => inr []
  | r :: rest =>
      match structTypes p !! r with
      | None => inl ("object with root key " +:+ r +:+ " not found")
      | Some rootStruct =>
          match lookupRoots p rest with
          | inl err => inl err
          | inr objs => inr (rootStruct :: objs)
          end
      end
  end.

Definition NewCodeGenerator (p : Parsed) (rootTypes : list string)
  : error + CodeGenerator :=
  match lookupRoots p rootTypes with
  | inl err => inl err
  | inr objs =>
      inr {| buf := EmptyString; parsed := p; rootObjs := objs;
             processedTypes := ∅ |}
  end.

(** * Definitions used to state the properties *)

(** [writes m] : whatever [m] returns, all it did to the generator was to
    append text to the buffer. *)
Definition writes (m : method) : Prop :=
  ∀ g, ∃ out, (m g).2 = Fprint out g.

(** The part of a tag value before its first comma: the name a json tag
    declares, without the options that may follow it. *)
Fixpoint beforeComma (s : string) : string :=
  match s with
  | EmptyString => EmptyString
  | String c s' =>
      if Ascii.eqb c ","%char then EmptyString else String c (beforeComma s')
  end.

(** External-name resolution as the specification words it: the tag
    override when there is one, no name at all when the override is [-],
    the lower-cased identifier when there is no tag. *)
Definition externalName `{GoStrings} (f : structField) : option string :=
  match Lookup (tag f) "json" with
  | None => Some (ToLower (Name f))
  | Some t => if String.eqb t "-" then None else Some (beforeComma t)
  end.

(** A method that reads nothing of the generator but the parsed package
    and does nothing to it but append text: it is described by the error
    and the text it produces for a given package. *)
Definition writer : Type := Parsed → option error * string.

Definition runsAs (m : method) (w : writer) : Prop :=
  ∀ g, m g = ((w (parsed g)).1, Fprint (w (parsed g)).2 g).

(** The presence expression as the specification words it: one disjunct
    per exported field, in declaration order, joined by [||]. *)
Definition disjunct (f : structField) : string :=
  match Underlying (Typ f) with
  | Slice _ | Map _ => "len(val." +:+ Name f +:+ ") > 0"
  | Struct => "val." +:+ Name f +:+ ".IsSet()"
  | Other _ => EmptyString
  end.

Definition orExpr (fs : list structField) : string :=
  Join " || " (disjunct <$> fs).

(** What follows [return]: a blank and the expression, or nothing when
    there is no field to mention. *)
Definition returnOperand (fs : list structField) : string :=
  match fs with
  | [] => EmptyString
  | _ => " " +:+ orExpr fs
  end.

Definition supported (f : structField) : Prop :=
  match Underlying (Typ f) with Other _ => False | _ => True end.

(** The statements of a Reset body as the specification words them, field
    by field. *)
Definition resetStmt (g : CodeGenerator) (f : structField) : string :=
  match Underlying (Typ f) with
  | Slice elem =>
      (if isKnown g elem then resetElems (Name f) else EmptyString)
        +:+ truncate (Name f)
  | Map _ => deleteKeys (Name f)
  | Struct => resetCall (Name f)
  | Other _ => EmptyString
  end.

Fixpoint resetBody (g : CodeGenerator) (fs : list structField) : string :=
  match fs with
  | [] => EmptyString
  | f :: rest =>
      (if Exported f then resetStmt g f else EmptyString) +:+ resetBody g rest
  end.

(** The fields the validation loop does not skip. *)
Definition considered (f : structField) : Prop :=
  Exported f = true ∨ Name f = anonymousField.

(** A type name that the outer switch of the validation loop matches. *)
Definition isNullable `{ValidationRules} (s : string) : bool :=
  String.eqb s nullableTypeString || String.eqb s nullableTypeInt
  || String.eqb s nullableTypeFloat64 || String.eqb s nullableTypeInterface.

(** What the loop writes when it is entered with [prefix]. *)
Fixpoint orTail (pre : string) (fs : list structField) : string :=
  match fs with
  | [] => EmptyString
  | f :: rest => pre +:+ " " +:+ disjunct f +:+ orTail " ||" rest
  end.


(** ** The order of visits

    [generateLog] is [generate] with a record of what it does: next to the
    error and the generator it returns the names of the types it has
    processed, that is, of the calls that got past the [processedTypes]
    check, in the order of the calls. Nothing in it reads the record. *)

Section Log.

Context `{GS : GoStrings} `{VR : ValidationRules}.

Definition visitLog : Type :=
  structType → string → CodeGenerator →
  option (option error * CodeGenerator * list string).

Fixpoint generateFieldsLog (rec : visitLog) (key : string)
    (fs : list structField) (g : CodeGenerator)
  : option (option error * CodeGenerator * list string) :=
  match fs with
  | [] => Some (None, g, [])
  | field :: rest =>
      match customStruct g (childType field) with
      | Some child =>
          match rec child (key +:+ jsonName field) g with
          | Some (None, g', l) =>
              match generateFieldsLog rec key rest g' with
              | Some (r, g'', l') => Some (r, g'', (l ++ l')%list)
              | None => None
              end
          | stop => stop
          end
      | None => generateFieldsLog rec key rest g
      end
  end.

Fixpoint generateLog (fuel : nat) (st : structType) (key : string)
    (g : CodeGenerator)
  : option (option error * CodeGenerator * list string) :=
  match fuel with
  | O => None
  | S fuel' =>
      if decide (name st ∈ processedTypes g) then Some (None, g, [])
      else
        match (generateIsSet st key >>
               generateReset st key >>
               generateValidation st key) (markProcessed (name st) g) with
        | (Some err, g') => Some (Some err, g', [name st])
        | (None, g') =>
            match generateFieldsLog (generateLog fuel') (dotted key)
                    (fields st) g' with
            | Some (r, g'', l) => Some (r, g'', name st :: l)
            | None => None
            end
        end
  end.

Fixpoint generateRootsLog (rec : visitLog) (roots : list structType)
    (g : CodeGenerator)
  : option (option error * CodeGenerator * list string) :=
  match roots with
  | [] => Some (None, g, [])
  | rootObj :: rest =>
      match rec rootObj EmptyString g with
      | Some (None, g', l) =>
          match generateRootsLog rec rest g' with
          | Some (r, g'', l') => Some (r, g'', (l ++ l')%list)
          | None => None
          end
      | stop => stop
      end
  end.

Definition GenerateLog (fuel : nat) (order : list string)
    (g : CodeGenerator)
  : option (option error * CodeGenerator * list string) :=
  generateRootsLog (generateLog fuel) (rootObjs g) (writeHeader order g).

(** Nesting depth that no run on [g] exceeds: a call nests only inside
    calls for other, not yet processed names, and the names are those of
    the struct types of the package and of the type the run starts at. *)
Definition enoughFuel (g : CodeGenerator) : nat :=
  S (S (size (structTypes (parsed g)))).

Definition Generate (order : list string) (g : CodeGenerator)
  : option (string * option error * CodeGenerator) :=
  GenerateWith (enoughFuel g) order g.

End Log.

Definition forgetLog {A B C : Type} (x : option (A * B * C)) : option (A * B) :=
  (fun '(r, g, _) => (r, g)) <$> x.

(** The names of the struct types of a package. *)
Definition typeNames (p : Parsed) : gset string :=
  list_to_set (name <$> (map_to_list (structTypes p)).*2).

(** [grows g g' l]: from [g] to [g'] text was appended to the buffer and
    exactly the names of [l], none of them processed before and no two of
    them equal, were added to [processedTypes]. *)
Definition grows (g g' : CodeGenerator) (l : list string) : Prop :=
  NoDup l
  ∧ (∀ n, n ∈ l → n ∉ processedTypes g)
  ∧ processedTypes g' = list_to_set l ∪ processedTypes g
  ∧ parsed g' = parsed g
  ∧ rootObjs g' = rootObjs g
  ∧ ∃ out, buf g' = buf g +:+ out.

(** [namesIn U g]: [U] holds the name of every struct type of the package. *)
Definition namesIn (U : gset string) (g : CodeGenerator) : Prop :=
  ∀ k v, structTypes (parsed g) !! k = Some v → name v ∈ U.

(** The declarations of the pattern variables, one line each. *)
Fixpoint patternVars (ks : list string) : string :=
  match ks with
  | [] => EmptyString
  | n :: rest => patternVar n +:+ patternVars rest
  end.

(** * Sample inputs

    A small package in the shape of the decoder models: a root type with a
    nullable string, a slice and a map of a nested type, and types that
    make a synthesis step fail. *)

Module Sample.

Definition field (n : string) (t : gotype) (e : bool) (tg : StructTag)
  : structField :=
  {| Name := n; Typ := t; Exported := e; tag := tg |}.

Definition tString : gotype := GoType "nullable.String" Struct.
Definition tTag : gotype := GoType "model.tag" Struct.
Definition tTags : gotype := GoType "[]model.tag" (Slice tTag).
Definition tLabels : gotype := GoType "map[string]model.tag" (Map tTag).
Definition tNames : gotype :=
  GoType "[]string" (Slice (GoType "string" (Other "*types.Basic"))).
Definition tFunc : gotype := GoType "func()" (Other "*types.Signature").
Definition tEmpty : gotype := GoType "struct{}" Struct.

Definition fKey : structField := field "Key" tString true [("json", "key")].
Definition fName : structField := field "Name" tString true [("json", "name")].
Definition fTags : structField :=
  field "Tags" tTags true [("json", "tags,omitempty")].
Definition fLabels : structField := field "Labels" tLabels true [].
Definition fNames : structField := field "Names" tNames true [].
Definition fHandler : structField := field "Handler" tFunc true [].
Definition fMarker : structField :=
  field "_" tEmpty false [("validate", "requiredAnyOf=name;tags")].
Definition fHook : structField := field "_" tFunc false [("json", "hook")].

Definition tag_ : structType := {| name := "tag"; fields := [fKey] |}.
Definition root : structType :=
  {| name := "root"; fields := [fName; fTags; fLabels; fNames] |}.
(** a type that refers to itself and to [root] *)
Definition node : structType :=
  {| name := "node";
     fields := [field "Next" (GoType "model.node" Struct) true [];
                field "Up" (GoType "model.root" Struct) true []] |}.
(** a type whose only field is the unexported marker *)
Definition marked : structType := {| name := "marked"; fields := [fMarker] |}.
Definition broken : structType :=
  {| name := "broken"; fields := [fName; fHandler] |}.

Definition package : Parsed :=
  {| structTypes :=
       <["model.root" := root]> (<["model.tag" := tag_]>
       (<["model.node" := node]> (<["model.broken" := broken]> ∅)));
     patternVariables := <["patternB" := "b+"]> (<["patternA" := "a+"]> ∅);
     pkgName := "model" |}.

Definition generator (roots : list structType) : CodeGenerator :=
  {| buf := EmptyString; parsed := package; rootObjs := roots;
     processedTypes := ∅ |}.

(** Rules that emit one line naming the rule and the field. *)
Definition rule (what : string) : validationGenerator :=
  fun _ f custom =>
    ("// " +:+ what +:+ " " +:+ Name f
       +:+ (if custom then " (custom)" else EmptyString) +:+ nl, None).

(** [strings.ToLower] on the identifiers of the samples, which are ASCII. *)
Definition asciiStrings : GoStrings := {| ToLower := asciiToLower |}.

Definition rules : ValidationRules :=
  {| nullableTypeString := "nullable.String";
     nullableTypeInt := "nullable.Int";
     nullableTypeFloat64 := "nullable.Float64";
     nullableTypeInterface := "nullable.Interface";
     generateNullableStringValidation := rule "string";
     generateNullableIntValidation := rule "int";
     generateNullableInterfaceValidation := rule "interface";
     generateSliceValidation := rule "slice";
     generateMapValidation := rule "map";
     generateStructValidation := rule "struct" |}.

End Sample.

(** * Further definitions used to state properties *)

(** [hasComma s]: the byte [,] occurs in [s]. *)
Fixpoint hasComma (s : string) : bool :=
  match s with
  | EmptyString => false
  | String c s' => Ascii.eqb c ","%char || hasComma s'
  end.

(** The struct types a package declares, under whatever key. *)
Definition declared (p : Parsed) (t : structType) : Prop :=
  ∃ k, structTypes p !! k = Some t.

(** The test of the validation loop, as a boolean: the field is exported
    or is the marker [_]. *)
Definition consideredb (f : structField) : bool :=
  Exported f || String.eqb (Name f) anonymousField.

(** [refers p a b]: [a] has a field that leads to [b]: a slice or a map
    whose element type is the name of [b] among the struct types of the
    package, or a field of any other kind whose own type is. *)
Definition refers (p : Parsed) (a b : structType) : Prop :=
  ∃ f, f ∈ fields a ∧
       match Underlying (Typ f) with
       | Slice elem => structTypes p !! TypeString elem = Some b
       | Map elem => structTypes p !! TypeString elem = Some b
       | Struct | Other _ => structTypes p !! TypeString (Typ f) = Some b
       end.

(** No two declared struct types share a name. *)
Definition wellNamed (p : Parsed) : Prop :=
  ∀ t1 t2, declared p t1 → declared p t2 → name t1 = name t2 → t1 = t2.

(** [closedExcept S g]: of every processed declared type whose name is not
    in [S], the types it refers to are processed too. *)
Definition closedExcept (S : gset string) (g : CodeGenerator) : Prop :=
  ∀ t c, declared (parsed g) t → name t ∈ processedTypes g → name t ∉ S →
         refers (parsed g) t c → name c ∈ processedTypes g.

(** * Further sample inputs *)

Module SampleMore.

Definition fDuration : structField :=
  Sample.field "Duration" (GoType "nullable.Float64" Struct) true
    [("json", "duration")].

(** Rules as in [Sample.rules], except that the rule for maps writes its
    first line and then rejects the field. *)
Definition rejectingMaps : ValidationRules :=
  {| nullableTypeString := "nullable.String";
     nullableTypeInt := "nullable.Int";
     nullableTypeFloat64 := "nullable.Float64";
     nullableTypeInterface := "nullable.Interface";
     generateNullableStringValidation := Sample.rule "string";
     generateNullableIntValidation := Sample.rule "int";
     generateNullableInterfaceValidation := Sample.rule "interface";
     generateSliceValidation := Sample.rule "slice";
     generateMapValidation :=
       fun _ f _ => ("// map " +:+ Name f +:+ nl,
                     Some "unhandled tag rule 'max'");
     generateStructValidation := Sample.rule "struct" |}.

(** A type with fields, none of them exported. *)
Definition hidden : structType :=
  {| name := "hidden";
     fields := [Sample.field "mu" (GoType "sync.Mutex" Struct) false [];
                Sample.field "count" (GoType "int" (Other "*types.Basic"))
                  false []] |}.

(** A package in which [leaf] is referred to by a map only. *)
Definition tLeaf : gotype := GoType "model.leaf" Struct.
Definition leaf : structType := {| name := "leaf"; fields := [Sample.fKey] |}.
Definition labelled : structType :=
  {| name := "labelled";
     fields := [Sample.field "ByName"
                  (GoType "map[string]model.leaf" (Map tLeaf)) true []] |}.

Definition mapPackage : Parsed :=
  {| structTypes :=
       <["model.labelled" := labelled]> (<["model.leaf" := leaf]> ∅);
     patternVariables := ∅;
     pkgName := "model" |}.

Definition mapGenerator : CodeGenerator :=
  {| buf := EmptyString; parsed := mapPackage; rootObjs := [labelled];
     processedTypes := ∅ |}.

End SampleMore.

(** * The steps of a run

    [generateTrace] is [generate] with a record of the synthesis steps it
    runs: for every type it processes, the type, the key and the generator
    on which the three methods of the type were generated. Nothing in it
    reads the record. *)

Record step : Type := {
  stepType : structType;
  stepKey : string;
  stepFrom : CodeGenerator
}.

Section Trace.

Context `{GS : GoStrings} `{VR : ValidationRules}.

(** The synthesis of one type: [generateIsSet], [generateReset] and
    [generateValidation], each run only if the one before returned no
    error. *)
Definition synthesize (st : structType) (key : string) : method :=
  generateIsSet st key >> generateReset st key >> generateValidation st key.

Definition runStep (s : step) : option error * CodeGenerator :=
  synthesize (stepType s) (stepKey s) (stepFrom s).

Definition visitTrace : Type :=
  structType → string → CodeGenerator →
  option (option error * CodeGenerator * list step).

Fixpoint generateFieldsTrace (rec : visitTrace) (key : string)
    (fs : list structField) (g : CodeGenerator)
  : option (option error * CodeGenerator * list step) :=
  match fs with
  | [] => Some (None, g, [])
  | field :: rest =>
      match customStruct g (childType field) with
      | Some child =>
          match rec child (key +:+ jsonName field) g with
          | Some (None, g', tr) =>
              match generateFieldsTrace rec key rest g' with
              | Some (r, g'', tr') => Some (r, g'', (tr ++ tr')%list)
              | None => None
              end
          | stop => stop
          end
      | None => generateFieldsTrace rec key rest g
      end
  end.

Fixpoint generateTrace (fuel : nat) (st : structType) (key : string)
    (g : CodeGenerator)
  : option (option error * CodeGenerator * list step) :=
  match fuel with
  | O => None
  | S fuel' =>
      if decide (name st ∈ processedTypes g) then Some (None, g, [])
      else
        let s := {| stepType := st; stepKey := key;
                    stepFrom := markProcessed (name st) g |} in
        match (generateIsSet st key >>
               generateReset st key >>
               generateValidation st key) (markProcessed (name st) g) with
        | (Some err, g') => Some (Some err, g', [s])
        | (None, g') =>
            match generateFieldsTrace (generateTrace fuel') (dotted key)
                    (fields st) g' with
            | Some (r, g'', tr) => Some (r, g'', s :: tr)
            | None => None
            end
        end
  end.

Fixpoint generateRootsTrace (rec : visitTrace) (roots : list structType)
    (g : CodeGenerator)
  : option (option error * CodeGenerator * list step) :=
  match roots with
  | [] => Some (None, g, [])
  | rootObj :: rest =>
      match rec rootObj EmptyString g with
      | Some (None, g', tr) =>
          match generateRootsTrace rec rest g' with
          | Some (r, g'', tr') => Some (r, g'', (tr ++ tr')%list)
          | None => None
          end
      | stop => stop
      end
  end.

Definition GenerateTrace (fuel : nat) (order : list string)
    (g : CodeGenerator)
  : option (option error * CodeGenerator * list step) :=
  generateRootsTrace (generateTrace fuel) (rootObjs g) (writeHeader order g).

(** [stepsOk tr]: every step of [tr] returned no error. *)
Definition stepsOk (tr : list step) : Prop :=
  Forall (fun s => (runStep s).1 = None) tr.

(** [traced r g' tr]: a run that returned [r] and left [g'] after the steps
    [tr]. Without an error every step returned none; with an error, the
    last step returned it and left [g'], and every step before returned
    none. *)
Definition traced (r : option error) (g' : CodeGenerator) (tr : list step)
  : Prop :=
  match r with
  | None => stepsOk tr
  | Some e => ∃ pre s, tr = (pre ++ [s])%list ∧ stepsOk pre
                       ∧ runStep s = (Some e, g')
  end.

End Trace.

(** * Properties *)

(** ** Strings *)

Module StrFacts.

Lemma app_assoc (a b c : string) : (a +:+ b) +:+ c = a +:+ (b +:+ c).
Proof.
  induction a as [|x a IH]; [reflexivity|].
  change (String x ((a +:+ b) +:+ c) = String x (a +:+ (b +:+ c))).
  by rewrite IH.
Qed.

Lemma app_nil_l (a : string) : EmptyString +:+ a = a.
Proof. reflexivity. Qed.

Lemma app_nil_r (a : string) : a +:+ EmptyString = a.
Proof.
  induction a as [|x a IH]; [reflexivity|].
  change (String x (a +:+ EmptyString) = String x a). by rewrite IH.
Qed.

Lemma Split_nonempty (s : string) : Split s ≠ [].
Proof.
  induction s as [|c s IH]; simpl; [done|].
  destruct (Ascii.eqb c ","); [done|]. by destruct (Split s).
Qed.

Lemma Split_head (s : string) : head (Split s) = Some (beforeComma s).
Proof.
  induction s as [|c s IH]; [reflexivity|]. simpl.
  destruct (Ascii.eqb c ","); [reflexivity|].
  destruct (Split s); simpl in *; congruence.
Qed.

End StrFacts.

(** ** What a method does to the generator *)

Lemma Fprint_Fprint (a b : string) (g : CodeGenerator) :
  Fprint b (Fprint a g) = Fprint (a +:+ b) g.
Proof. unfold Fprint; simpl. by rewrite StrFacts.app_assoc. Qed.

Lemma Fprint_empty (g : CodeGenerator) : Fprint EmptyString g = g.
Proof. destruct g; unfold Fprint; simpl. by rewrite StrFacts.app_nil_r. Qed.

Lemma writes_emit (s : string) : writes (emit s).
Proof. intros g. by exists s. Qed.

Lemma writes_skip : writes skip.
Proof. intros g. exists EmptyString. by rewrite Fprint_empty. Qed.

Lemma writes_fail (e : error) : writes (fail e).
Proof. intros g. exists EmptyString. by rewrite Fprint_empty. Qed.

Lemma writes_andThen (m k : method) : writes m → writes k → writes (m >> k).
Proof.
  intros Hm Hk g. unfold andThen.
  destruct (Hm g) as [a Ha]. destruct (m g) as [[e|] g1]; simpl in *; subst g1.
  - by exists a.
  - destruct (Hk (Fprint a g)) as [b Hb]. exists (a +:+ b).
    by rewrite Hb, Fprint_Fprint.
Qed.

Create HintDb writes.
#[local] Hint Resolve writes_emit writes_skip writes_fail writes_andThen : writes.

(** From here on [strings.ToLower] and the validation rules of the package
    are arbitrary. *)

Section Theory.

Context `{GS : GoStrings} `{VR : ValidationRules}.

(** ** External names: [parseTag], [jsonName], [flattenName] *)

Lemma parseTag_dash (structTag : StructTag) (tagName : string) :
  Lookup structTag tagName = Some "-" → parseTag structTag tagName = [].
Proof. unfold parseTag. by intros ->. Qed.

(** C6, as the code has it: [jsonName] returns the name declared by the
    json tag (the tag value up to its first comma) when the field has a
    json tag other than [-], and the lower-cased identifier both when the
    field has no json tag and when the tag is exactly [-]; in the last case
    [parseTag] yields no parts and [jsonName] falls back to the identifier,
    so every field gets an external name. *)
Theorem jsonName_resolution (f : structField) :
  jsonName f =
    match Lookup (tag f) "json" with
    | None => ToLower (Name f)
    | Some t => if String.eqb t "-" then ToLower (Name f) else beforeComma t
    end.
Proof.
  unfold jsonName, parseTag.
  destruct (Lookup (tag f) "json") as [t|]; [|reflexivity].
  destruct (String.eqb t "-"); [reflexivity|].
  pose proof (StrFacts.Split_head t) as Hh.
  destruct (Split t); simpl in Hh; congruence.
Qed.

Lemma dotted_nonempty (key : string) :
  key ≠ EmptyString → dotted key = key +:+ ".".
Proof.
  intros Hk. unfold dotted.
  destruct (String.eqb_spec key EmptyString); [done|reflexivity].
Qed.

Lemma flattenName_empty (f : structField) :
  flattenName EmptyString f = jsonName f.
Proof. reflexivity. Qed.

Lemma flattenName_nonempty (key : string) (f : structField) :
  key ≠ EmptyString → flattenName key f = key +:+ "." +:+ jsonName f.
Proof.
  intros Hk. unfold flattenName. rewrite dotted_nonempty by done.
  apply StrFacts.app_assoc.
Qed.

(** ** Methods as writers *)

Lemma runsAs_writes (m : method) (w : writer) : runsAs m w → writes m.
Proof. intros Hm g. rewrite Hm. by eexists. Qed.

Lemma runsAs_emit (s : string) : runsAs (emit s) (fun _ => (None, s)).
Proof. by intros g. Qed.

Lemma runsAs_skip : runsAs skip (fun _ => (None, EmptyString)).
Proof. intros g. simpl. by rewrite Fprint_empty. Qed.

Lemma runsAs_fail (e : error) : runsAs (fail e) (fun _ => (Some e, EmptyString)).
Proof. intros g. simpl. by rewrite Fprint_empty. Qed.

Lemma runsAs_andThen (m k : method) (wm wk : writer) :
  runsAs m wm → runsAs k wk →
  runsAs (m >> k)
    (fun p => match (wm p).1 with
              | Some e => (Some e, (wm p).2)
              | None => ((wk p).1, (wm p).2 +:+ (wk p).2)
              end).
Proof.
  intros Hm Hk g. unfold andThen. rewrite Hm.
  destruct (wm (parsed g)) as [[e|] a]; simpl; [done|].
  rewrite Hk. simpl. by rewrite Fprint_Fprint.
Qed.

Lemma runsAs_ext (m m' : method) (w : writer) :
  (∀ g, m g = m' g) → runsAs m' w → runsAs m w.
Proof. intros He Hm g. by rewrite He. Qed.

(** ** [generateIsSet] *)

Lemma isSetLen_disjunct (pre : string) (f : structField) (e : gotype) :
  Underlying (Typ f) = Slice e ∨ Underlying (Typ f) = Map e →
  isSetLen pre (Name f) = pre +:+ " " +:+ disjunct f.
Proof. unfold disjunct. by intros [-> | ->]. Qed.

Lemma isSetCall_disjunct (pre : string) (f : structField) :
  Underlying (Typ f) = Struct →
  isSetCall pre (Name f) = pre +:+ " " +:+ disjunct f.
Proof. unfold disjunct. by intros ->. Qed.

Lemma orTail_Join (f : structField) (rest : list structField) :
  disjunct f +:+ orTail " ||" rest = orExpr (f :: rest).
Proof.
  revert f. induction rest as [|f' rest IH]; intros f.
  - apply StrFacts.app_nil_r.
  - specialize (IH f'). unfold orExpr in *. rewrite !fmap_cons in *.
    cbn [orTail]. rewrite IH. reflexivity.
Qed.

Lemma orTail_returnOperand (fs : list structField) :
  orTail EmptyString fs = returnOperand fs.
Proof.
  destruct fs as [|f rest]; [reflexivity|].
  unfold returnOperand. rewrite <- orTail_Join. reflexivity.
Qed.

Lemma isSetFields_ok (key : string) (fs : list structField) (pre : string)
    (g g' : CodeGenerator) :
  isSetFields key fs pre g = (None, g') →
  g' = Fprint (orTail pre (List.filter Exported fs)) g
  ∧ Forall supported (List.filter Exported fs).
Proof.
  revert pre g. induction fs as [|f rest IH]; intros pre g Hrun; simpl in *.
  - inversion Hrun. by rewrite Fprint_empty.
  - destruct (Exported f) eqn:Hex; simpl in *; [|by apply IH].
    unfold andThen, emit, fail in Hrun.
    destruct (Underlying (Typ f)) as [e|e| |t] eqn:Hu; try discriminate.
    + apply IH in Hrun as [-> Hall]. split.
      * rewrite Fprint_Fprint. f_equal.
        rewrite (isSetLen_disjunct pre f e) by auto.
        by rewrite !StrFacts.app_assoc.
      * constructor; [|done]. unfold supported. by rewrite Hu.
    + apply IH in Hrun as [-> Hall]. split.
      * rewrite Fprint_Fprint. f_equal.
        rewrite (isSetLen_disjunct pre f e) by auto.
        by rewrite !StrFacts.app_assoc.
      * constructor; [|done]. unfold supported. by rewrite Hu.
    + apply IH in Hrun as [-> Hall]. split.
      * rewrite Fprint_Fprint. f_equal.
        rewrite (isSetCall_disjunct pre f) by auto.
        by rewrite !StrFacts.app_assoc.
      * constructor; [|done]. unfold supported. by rewrite Hu.
Qed.

(** When [generateIsSet] returns no error, what it has appended to the
    buffer is the method header, then [return], followed by nothing when
    the type has no exported field and otherwise by a blank and the [||]
    of one disjunct per exported field in declaration order
    ([len(val.F) > 0] for a slice or map field, [val.F.IsSet()] for a field
    whose underlying type is a struct), then the closing brace; unexported
    fields add nothing, and every exported field is of one of these three
    shapes. *)
Theorem generateIsSet_or_of_exported (structTyp : structType) (key : string)
    (g g' : CodeGenerator) :
  generateIsSet structTyp key g = (None, g') →
  let exported := List.filter Exported (fields structTyp) in
  g' = Fprint ((nl +:+ "func (val *" +:+ name structTyp +:+ ") IsSet() bool {"
                  +:+ nl +:+ tab +:+ "return")
                 +:+ returnOperand exported
                 +:+ (nl +:+ "}" +:+ nl)) g
  ∧ Forall supported exported.
Proof.
  unfold generateIsSet.
  destruct (length (fields structTyp) =? 0)%nat; [discriminate|].
  unfold andThen, emit at 1. simpl.
  destruct (isSetFields _ _ _ _) as [[e|] g1] eqn:Hloop; [discriminate|].
  intros Hrun. inversion Hrun; subst g'; clear Hrun.
  apply isSetFields_ok in Hloop as [-> Hall].
  split; [|done].
  rewrite !Fprint_Fprint, orTail_returnOperand.
  change (nl +:+ "func (val *" +:+ name structTyp +:+ ") IsSet() bool {"
             +:+ nl +:+ tab +:+ "return") with (isSetHeader (name structTyp)).
  change (nl +:+ "}" +:+ nl) with isSetEnd.
  by rewrite ?StrFacts.app_assoc.
Qed.

Lemma generateIsSet_no_fields (structTyp : structType) (key : string)
    (g : CodeGenerator) :
  fields structTyp = [] →
  generateIsSet structTyp key g =
    (Some ("unhandled struct " +:+ name structTyp
             +:+ " (does not have any exported fields)"), g).
Proof. unfold generateIsSet. by intros ->. Qed.

Lemma isSetFields_unexported (key : string) (fs : list structField)
    (pre : string) (g : CodeGenerator) :
  Forall (fun f => Exported f = false) fs → isSetFields key fs pre g = (None, g).
Proof.
  induction 1 as [|f rest Hf _ IH]; [reflexivity|]. simpl. by rewrite Hf.
Qed.

(** A type that has fields, none of them exported, passes the check of
    [generateIsSet]: the method is emitted with a bare [return]. *)
Lemma generateIsSet_no_exported (structTyp : structType) (key : string)
    (g : CodeGenerator) :
  fields structTyp ≠ [] →
  Forall (fun f => Exported f = false) (fields structTyp) →
  generateIsSet structTyp key g =
    (None, Fprint (isSetHeader (name structTyp) +:+ isSetEnd) g).
Proof.
  intros Hne Hall. unfold generateIsSet.
  destruct (length (fields structTyp) =? 0)%nat eqn:E.
  { apply Nat.eqb_eq in E. by destruct (fields structTyp). }
  unfold andThen, emit.
  rewrite isSetFields_unexported by done.
  by rewrite Fprint_Fprint.
Qed.

(** C8 at the types that have fields but no exported one: [generateIsSet]
    returns no error and the method it emits has a [return] without an
    operand, so the body holds no boolean expression at all. *)
Theorem generateIsSet_bare_return (structTyp : structType) (key : string)
    (g : CodeGenerator) :
  fields structTyp ≠ [] →
  List.filter Exported (fields structTyp) = [] →
  generateIsSet structTyp key g =
    (None, Fprint (nl +:+ "func (val *" +:+ name structTyp
                      +:+ ") IsSet() bool {" +:+ nl
                      +:+ tab +:+ "return" +:+ nl +:+ "}" +:+ nl) g).
Proof.
  intros Hne Hnone. rewrite generateIsSet_no_exported; [|done|].
  - unfold isSetHeader, isSetEnd. by rewrite ?StrFacts.app_assoc.
  - clear Hne. induction (fields structTyp) as [|f rest IH]; [constructor|].
    simpl in Hnone. destruct (Exported f) eqn:Hex; [done|].
    constructor; [done|by apply IH].
Qed.

(** C4 at a type whose only field is the unexported marker [_]: the type
    has no exported field, yet [generateIsSet] returns no error and emits
    an [IsSet] method whose [return] has no operand. *)
Theorem generateIsSet_marker_only (g : CodeGenerator) :
  List.filter Exported (fields Sample.marked) = []
  ∧ generateIsSet Sample.marked EmptyString g =
      (None, Fprint (nl +:+ "func (val *marked) IsSet() bool {" +:+ nl
                        +:+ tab +:+ "return" +:+ nl +:+ "}" +:+ nl) g).
Proof.
  split; [reflexivity|].
  by rewrite generateIsSet_no_exported; [|done|repeat constructor].
Qed.

(** ** [generateReset] *)

Lemma resetStmt_Fprint (s : string) (g : CodeGenerator) (f : structField) :
  resetStmt (Fprint s g) f = resetStmt g f.
Proof. reflexivity. Qed.

Lemma resetBody_Fprint (s : string) (g : CodeGenerator) (fs : list structField) :
  resetBody (Fprint s g) fs = resetBody g fs.
Proof. induction fs as [|f rest IH]; [reflexivity|]. simpl. by rewrite IH. Qed.


Lemma resetField_ok (key : string) (f : structField) (g g' : CodeGenerator) :
  resetField key f g = (None, g') → g' = Fprint (resetStmt g f) g.
Proof.
  unfold resetField, resetStmt, isKnown, andThen, emit, skip, fail.
  destruct (Underlying (Typ f)) as [e|e| |t]; try congruence.
  destruct (customStruct g e); intros [= <-]; [|reflexivity].
  by rewrite Fprint_Fprint.
Qed.

Lemma resetFields_ok (key : string) (fs : list structField)
    (g g' : CodeGenerator) :
  resetFields key fs g = (None, g') → g' = Fprint (resetBody g fs) g.
Proof.
  revert g. induction fs as [|f rest IH]; intros g Hrun; simpl in *.
  - inversion Hrun. by rewrite Fprint_empty.
  - destruct (Exported f); simpl in *; [|by apply IH].
    unfold andThen in Hrun.
    destruct (resetField key f g) as [[e|] g1] eqn:Hf; [discriminate|].
    apply resetField_ok in Hf as ->. apply IH in Hrun as ->.
    by rewrite Fprint_Fprint, resetBody_Fprint.
Qed.

Lemma generateReset_ok (structTyp : structType) (key : string)
    (g g' : CodeGenerator) :
  generateReset structTyp key g = (None, g') →
  g' = Fprint (resetHeader (name structTyp)
                 +:+ resetBody g (fields structTyp) +:+ resetEnd) g.
Proof.
  unfold generateReset, andThen, emit at 1.
  destruct (resetFields _ _ _) as [[e|] g1] eqn:Hloop; [discriminate|].
  intros [= <-]. apply resetFields_ok in Hloop as ->.
  rewrite !Fprint_Fprint, resetBody_Fprint.
  by rewrite ?StrFacts.app_assoc.
Qed.



(** ** [generateValidation] *)

Lemma andThen_assoc (a b c : method) (g : CodeGenerator) :
  ((a >> b) >> c) g = (a >> b >> c) g.
Proof. unfold andThen. destruct (a g) as [[e|] g1]; [done|]. done. Qed.

Lemma andThen_fails (m k : method) (g : CodeGenerator) (e : error) :
  (m g).1 = Some e → ((m >> k) g).1 = Some e.
Proof. unfold andThen. destruct (m g) as [[e'|] g1]; simpl; congruence. Qed.

Lemma andThen_continues (m k : method) (g g1 : CodeGenerator) :
  m g = (None, g1) → (m >> k) g = k g1.
Proof. unfold andThen. by intros ->. Qed.

Section ValidationFacts.

Lemma selectValidation_Fprint (s : string) (g : CodeGenerator) (f : structField) :
  selectValidation (Fprint s g) f = selectValidation g f.
Proof. reflexivity. Qed.

Lemma selectValidation_unsupported (g : CodeGenerator) (f : structField)
    (t : string) :
  isNullable (TypeString (Typ f)) = false →
  Underlying (Typ f) = Other t →
  selectValidation g f = inr ("unhandled type " +:+ t).
Proof.
  unfold isNullable, selectValidation. intros Hn Hu.
  apply orb_false_elim in Hn as [Hn ->].
  apply orb_false_elim in Hn as [Hn ->].
  apply orb_false_elim in Hn as [-> ->].
  by rewrite Hu.
Qed.

(** The error of a validation method and the text it appends depend on
    the parsed package only. *)
Lemma validateField_runsAs (key : string) (all : list structField)
    (f : structField) :
  ∃ w, runsAs (validateField key all f) w.
Proof.
  exists (fun p =>
    let r := validateField key all f
               {| buf := EmptyString; parsed := p; rootObjs := [];
                  processedTypes := ∅ |} in
    (r.1, buf r.2)).
  intros g. unfold validateField. simpl.
  change (selectValidation {| buf := EmptyString; parsed := parsed g;
                              rootObjs := []; processedTypes := ∅ |} f)
    with (selectValidation g f).
  destruct (selectValidation g f) as [[v c]|e]; simpl.
  - destruct (v all f c) as [out [e|]]; reflexivity.
  - by rewrite Fprint_empty.
Qed.

Lemma validateFields_runsAs (key : string) (all fs : list structField) :
  ∃ w, runsAs (validateFields key all fs) w.
Proof.
  induction fs as [|f rest [wr Hr]]; simpl.
  - eexists. apply runsAs_skip.
  - destruct (negb (Exported f) && negb (String.eqb (Name f) anonymousField));
      [by exists wr|].
    destruct (validateField_runsAs key all f) as [wf Hf].
    eexists. by apply runsAs_andThen.
Qed.

Lemma validateFields_error_Fprint (key : string) (all fs : list structField)
    (s : string) (g : CodeGenerator) :
  (validateFields key all fs (Fprint s g)).1 = (validateFields key all fs g).1.
Proof.
  destruct (validateFields_runsAs key all fs) as [w Hw]. by rewrite !Hw.
Qed.

Lemma validateFields_app (key : string) (all pre rest : list structField)
    (g : CodeGenerator) :
  validateFields key all (pre ++ rest) g =
    (validateFields key all pre >> validateFields key all rest) g.
Proof.
  revert g. induction pre as [|f pre IH]; intros g; simpl.
  - reflexivity.
  - destruct (negb (Exported f) && negb (String.eqb (Name f) anonymousField));
      [apply IH|].
    unfold andThen in *.
    destruct (validateField key all f g) as [[e|] g1]; [done|]. apply IH.
Qed.

Lemma considered_not_skipped (f : structField) :
  considered f →
  negb (Exported f) && negb (String.eqb (Name f) anonymousField) = false.
Proof.
  intros [-> | ->]; [reflexivity|]. by rewrite andb_false_r.
Qed.

Lemma isRoot_spec (g : CodeGenerator) (structTyp : structType) :
  isRoot g structTyp = bool_decide (name structTyp ∈ name <$> rootObjs g).
Proof.
  unfold isRoot. induction (rootObjs g) as [|r rest IH]; [reflexivity|].
  simpl. rewrite IH.
  destruct (String.eqb_spec (name structTyp) (name r)) as [Heq|Hne]; simpl.
  - symmetry. apply bool_decide_eq_true. rewrite Heq. by left.
  - apply bool_decide_ext. rewrite elem_of_cons. tauto.
Qed.

(** C3: [generateValidation] writes the header of the validate method,
    then, exactly when the name of the type is not the name of a root, the
    short circuit [if !val.IsSet() { return nil }], and from there it runs
    the loop over the fields and writes the end of the method; the loop
    only appends, so for a type that is not a root the short circuit is
    the first statement of the body, and for a root the header is followed
    at once by what the field rules write. *)
Theorem generateValidation_short_circuit (structTyp : structType)
    (key : string) (g : CodeGenerator) :
  let start :=
    Fprint (nl +:+ "func (val *" +:+ name structTyp +:+ ") validate() error {"
              +:+ nl
              +:+ (if bool_decide (name structTyp ∈ name <$> rootObjs g)
                   then EmptyString
                   else "if !val.IsSet() {" +:+ nl
                          +:+ tab +:+ "return nil" +:+ nl
                          +:+ "}" +:+ nl)) g in
  generateValidation structTyp key g =
    (validateFields key (fields structTyp) (fields structTyp) >>
     emit ("return nil" +:+ nl +:+ "}" +:+ nl)) start
  ∧ ∃ rules,
      (validateFields key (fields structTyp) (fields structTyp) start).2
      = Fprint rules start.
Proof.
  intros start. split.
  - unfold generateValidation. rewrite isRoot_spec.
    unfold andThen at 1, emit at 1. subst start.
    destruct (bool_decide (name structTyp ∈ name <$> rootObjs g));
      simpl negb; cbv iota.
    + unfold andThen at 1, skip at 1. unfold validateHeader.
      by rewrite StrFacts.app_nil_r.
    + unfold andThen at 1, emit at 1. rewrite Fprint_Fprint.
      unfold validateHeader, shortCircuit.
      by rewrite ?StrFacts.app_assoc.
  - destruct (validateFields_runsAs key (fields structTyp) (fields structTyp))
      as [w Hw].
    exact (runsAs_writes _ _ Hw start).
Qed.

(** C7: when the validation loop reaches a field it does not skip, whose
    type name is none of the nullable types and whose underlying type is
    neither a slice, a map nor a struct, [generateValidation] returns the
    error [unhandled type T] wrapped with the flattened key of the field:
    the field's external name, preceded by the parent key and a dot when
    there is a parent key. *)
Theorem generateValidation_unsupported (g : CodeGenerator) (n key : string)
    (pre : list structField) (f : structField) (post : list structField)
    (t : string) :
  let structTyp := {| name := n; fields := pre ++ f :: post |} in
  (validateFields key (fields structTyp) pre g).1 = None →
  considered f →
  isNullable (TypeString (Typ f)) = false →
  Underlying (Typ f) = Other t →
  (generateValidation structTyp key g).1 =
    Some (flattenName key f +:+ ": unhandled type " +:+ t)
  ∧ flattenName key f =
      (if String.eqb key EmptyString then jsonName f
       else key +:+ "." +:+ jsonName f).
Proof.
  intros structTyp Hpre Hcons Hnull Hu. split.
  - assert ((validateFields key (fields structTyp) (fields structTyp) g).1
            = Some (flattenName key f +:+ ": unhandled type " +:+ t))
      as Hloop.
    { subst structTyp. cbn [fields] in *.
      rewrite validateFields_app. unfold andThen at 1.
      destruct (validateFields key (pre ++ f :: post) pre g)
        as [e g1]; simpl in Hpre; subst e.
      simpl. rewrite considered_not_skipped by done.
      unfold andThen, validateField.
      by rewrite (selectValidation_unsupported _ _ t). }
    unfold generateValidation.
    rewrite (andThen_continues _ _ g (Fprint (validateHeader n) g))
      by reflexivity.
    destruct (negb (isRoot g structTyp)).
    + rewrite (andThen_continues _ _ _
                 (Fprint shortCircuit (Fprint (validateHeader n) g)))
        by reflexivity.
      apply andThen_fails.
      by rewrite !validateFields_error_Fprint.
    + rewrite (andThen_continues _ _ _ (Fprint (validateHeader n) g))
        by reflexivity.
      apply andThen_fails.
      by rewrite !validateFields_error_Fprint.
  - unfold flattenName, dotted.
    destruct (String.eqb_spec key EmptyString) as [->|_]; [reflexivity|].
    apply StrFacts.app_assoc.
Qed.

End ValidationFacts.

(** ** [generate]: the record of visits *)

Lemma grows_refl (g : CodeGenerator) : grows g g [].
Proof.
  repeat split; [constructor|set_solver|set_solver|].
  exists EmptyString. by rewrite StrFacts.app_nil_r.
Qed.

Lemma grows_trans (g g1 g2 : CodeGenerator) (l1 l2 : list string) :
  grows g g1 l1 → grows g1 g2 l2 → grows g g2 (l1 ++ l2)%list.
Proof.
  intros (Hd1 & Hn1 & Hp1 & Hq1 & Hr1 & o1 & Hb1)
         (Hd2 & Hn2 & Hp2 & Hq2 & Hr2 & o2 & Hb2).
  repeat split.
  - apply NoDup_app. repeat split; [done| |done].
    intros n Hin1 Hin2. apply (Hn2 n Hin2). rewrite Hp1. set_solver.
  - intros n [Hin|Hin]%elem_of_app; [by apply Hn1|].
    intros Hp. apply (Hn2 n Hin). rewrite Hp1. set_solver.
  - rewrite Hp2, Hp1, list_to_set_app_L. set_solver.
  - congruence.
  - congruence.
  - exists (o1 +:+ o2). by rewrite Hb2, Hb1, StrFacts.app_assoc.
Qed.

Lemma grows_mark (g : CodeGenerator) (n out : string) :
  n ∉ processedTypes g → grows g (Fprint out (markProcessed n g)) [n].
Proof.
  intros Hn. repeat split; simpl.
  - apply NoDup_singleton.
  - intros m ->%list_elem_of_singleton. done.
  - set_solver.
  - by exists out.
Qed.

Lemma grows_cons (g g1 g2 : CodeGenerator) (n : string) (l : list string) :
  grows g g1 [n] → grows g1 g2 l → grows g g2 (n :: l).
Proof. intros H1 H2. exact (grows_trans _ _ _ [n] l H1 H2). Qed.

Lemma writes_isSetFields (key : string) (fs : list structField) (pre : string) :
  writes (isSetFields key fs pre).
Proof.
  revert pre. induction fs as [|f rest IH]; intros pre; simpl.
  - apply writes_skip.
  - destruct (negb (Exported f)); [apply IH|].
    destruct (Underlying (Typ f)); auto with writes.
Qed.

Lemma writes_generateIsSet (st : structType) (key : string) :
  writes (generateIsSet st key).
Proof.
  unfold generateIsSet. destruct (_ =? _)%nat; [apply writes_fail|].
  auto using writes_isSetFields with writes.
Qed.

Lemma writes_resetField (key : string) (f : structField) :
  writes (resetField key f).
Proof.
  intros g. unfold resetField.
  destruct (Underlying (Typ f)) as [e|e| |t].
  - destruct (customStruct g e); apply writes_andThen; auto with writes.
  - apply writes_emit.
  - apply writes_emit.
  - apply writes_fail.
Qed.

Lemma writes_resetFields (key : string) (fs : list structField) :
  writes (resetFields key fs).
Proof.
  induction fs as [|f rest IH]; simpl; [apply writes_skip|].
  destruct (negb (Exported f)); [done|].
  auto using writes_resetField with writes.
Qed.

Lemma writes_generateReset (st : structType) (key : string) :
  writes (generateReset st key).
Proof. unfold generateReset. auto using writes_resetFields with writes. Qed.

Section GenerateFacts.

Lemma writes_generateValidation (st : structType) (key : string) :
  writes (generateValidation st key).
Proof.
  intros g. unfold generateValidation.
  destruct (validateFields_runsAs key (fields st) (fields st)) as [w Hw].
  apply runsAs_writes in Hw.
  destruct (negb (isRoot g st)); apply writes_andThen; auto with writes.
Qed.

Lemma writes_synthesis (st : structType) (key : string) :
  writes (generateIsSet st key >> generateReset st key >>
          generateValidation st key).
Proof.
  auto using writes_generateIsSet, writes_generateReset,
    writes_generateValidation with writes.
Qed.

(** The record can be forgotten: [generateLog] computes what [generate]
    computes. *)
Lemma generateFieldsLog_forget (recL : visitLog) (rec : visit) :
  (∀ st key g, forgetLog (recL st key g) = rec st key g) →
  ∀ key fs g,
    forgetLog (generateFieldsLog recL key fs g) = generateFields rec key fs g.
Proof.
  intros Hrec key fs. induction fs as [|f rest IH]; intros g; simpl; [done|].
  destruct (customStruct g (childType f)) as [child|]; [|apply IH].
  rewrite <- Hrec.
  destruct (recL child (key +:+ jsonName f) g) as [[[[e|] g1] l]|]; simpl;
    [done| |done].
  rewrite <- IH.
  by destruct (generateFieldsLog recL key rest g1) as [[[r g2] l2]|].
Qed.

Lemma generateLog_forget (fuel : nat) (st : structType) (key : string)
    (g : CodeGenerator) :
  forgetLog (generateLog fuel st key g) = generate fuel st key g.
Proof.
  revert st key g. induction fuel as [|fuel IH]; intros st key g; simpl;
    [done|].
  destruct (decide (name st ∈ processedTypes g)); [done|].
  destruct ((generateIsSet st key >> generateReset st key >>
             generateValidation st key) (markProcessed (name st) g))
    as [[e|] g1]; [done|].
  rewrite <- (generateFieldsLog_forget (generateLog fuel) (generate fuel) IH).
  by destruct (generateFieldsLog _ _ _ _) as [[[r g2] l2]|].
Qed.

Lemma generateRootsLog_forget (fuel : nat) (roots : list structType)
    (g : CodeGenerator) :
  forgetLog (generateRootsLog (generateLog fuel) roots g)
  = generateRoots (generate fuel) roots g.
Proof.
  revert g. induction roots as [|r rest IH]; intros g; simpl; [done|].
  rewrite <- generateLog_forget.
  destruct (generateLog fuel r EmptyString g) as [[[[e|] g1] l]|]; simpl;
    [done| |done].
  rewrite <- IH.
  by destruct (generateRootsLog _ rest g1) as [[[r2 g2] l2]|].
Qed.

(** Every call leaves the generator grown by the names it has recorded. *)
Lemma generateFieldsLog_grows (rec : visitLog) :
  (∀ st key g r g' l, rec st key g = Some (r, g', l) → grows g g' l) →
  ∀ key fs g r g' l,
    generateFieldsLog rec key fs g = Some (r, g', l) → grows g g' l.
Proof.
  intros Hrec key fs. induction fs as [|f rest IH]; intros g r g' l; simpl.
  - intros [= <- <- <-]. apply grows_refl.
  - destruct (customStruct g (childType f)) as [child|]; [|apply IH].
    destruct (rec child (key +:+ jsonName f) g) as [[[[e|] g1] l1]|] eqn:Hc;
      [|destruct (generateFieldsLog rec key rest g1) as [[[r2 g2] l2]|] eqn:Hr|];
      intros [= <- <- <-].
    + by eapply Hrec.
    + eapply grows_trans; [by eapply Hrec|by eapply IH].
Qed.

Lemma generateLog_grows (fuel : nat) (st : structType) (key : string)
    (g : CodeGenerator) (r : option error) (g' : CodeGenerator)
    (l : list string) :
  generateLog fuel st key g = Some (r, g', l) → grows g g' l.
Proof.
  revert st key g r g' l.
  induction fuel as [|fuel IH]; intros st key g r g' l; simpl; [done|].
  destruct (decide (name st ∈ processedTypes g)) as [|Hnew].
  { intros [= <- <- <-]. apply grows_refl. }
  destruct (writes_synthesis st key (markProcessed (name st) g)) as [out Hout].
  destruct ((generateIsSet st key >> generateReset st key >>
             generateValidation st key) (markProcessed (name st) g))
    as [[e|] g1]; simpl in Hout; subst g1.
  - intros [= <- <- <-]. by apply grows_mark.
  - destruct (generateFieldsLog _ _ _ _) as [[[r2 g2] l2]|] eqn:Hfs;
      intros [= <- <- <-].
    eapply grows_cons; [by apply grows_mark|].
    eapply generateFieldsLog_grows; [|exact Hfs]. apply IH.
Qed.

Lemma generateRootsLog_grows (fuel : nat) (roots : list structType)
    (g : CodeGenerator) (r : option error) (g' : CodeGenerator)
    (l : list string) :
  generateRootsLog (generateLog fuel) roots g = Some (r, g', l) →
  grows g g' l.
Proof.
  revert g r g' l. induction roots as [|rt rest IH]; intros g r g' l; simpl.
  - intros [= <- <- <-]. apply grows_refl.
  - destruct (generateLog fuel rt EmptyString g) as [[[[e|] g1] l1]|] eqn:Hc;
      [|destruct (generateRootsLog _ rest g1) as [[[r2 g2] l2]|] eqn:Hr|];
      intros [= <- <- <-].
    + by eapply generateLog_grows.
    + eapply grows_trans; [by eapply generateLog_grows|by eapply IH].
Qed.

End GenerateFacts.

(** ** [generate] returns *)

Local Open Scope nat_scope.

Lemma size_list_to_set_le (l : list string) :
  size (list_to_set l : gset string) ≤ length l.
Proof.
  induction l as [|x l IH].
  - rewrite list_to_set_nil, size_empty. simpl. lia.
  - rewrite list_to_set_cons, size_union_alt, size_singleton. simpl length.
    assert (size ((list_to_set l : gset string) ∖ {[x]})
            ≤ size (list_to_set l : gset string))
      by (apply subseteq_size; set_solver).
    lia.
Qed.

Lemma size_typeNames (p : Parsed) : size (typeNames p) ≤ size (structTypes p).
Proof.
  unfold typeNames. etrans; [apply size_list_to_set_le|].
  by rewrite !length_fmap, length_map_to_list.
Qed.

Lemma namesIn_typeNames (g : CodeGenerator) (extra : gset string) :
  namesIn (typeNames (parsed g) ∪ extra) g.
Proof.
  intros k v Hkv. apply elem_of_union_l. unfold typeNames.
  apply elem_of_list_to_set, list_elem_of_fmap. exists v. split; [done|].
  apply list_elem_of_fmap. exists (k, v). split; [done|].
  by apply elem_of_map_to_list.
Qed.

Lemma size_unprocessed_mark (U P : gset string) (n : string) (fuel : nat) :
  n ∈ U → n ∉ P → size (U ∖ P) < S fuel → size (U ∖ ({[n]} ∪ P)) < fuel.
Proof.
  intros HU HP Hlt.
  assert (U ∖ ({[n]} ∪ P) ⊂ U ∖ P) as Hsub%subset_size by set_solver.
  lia.
Qed.

Lemma size_unprocessed_mono (U P P' : gset string) :
  P ⊆ P' → size (U ∖ P') ≤ size (U ∖ P).
Proof. intros HP. apply subseteq_size. set_solver. Qed.

Lemma grows_processed (g g' : CodeGenerator) (l : list string) :
  grows g g' l → processedTypes g ⊆ processedTypes g'.
Proof. intros (_ & _ & -> & _). set_solver. Qed.

Lemma grows_namesIn (U : gset string) (g g' : CodeGenerator) (l : list string) :
  grows g g' l → namesIn U g → namesIn U g'.
Proof. intros (_ & _ & _ & Hp & _) HU k v. rewrite Hp. apply HU. Qed.

Section Termination.

Lemma generateFieldsLog_returns (fuel : nat) (U : gset string) :
  (∀ st key g, namesIn U g → name st ∈ U →
               size (U ∖ processedTypes g) < fuel →
               is_Some (generateLog fuel st key g)) →
  ∀ key fs g, namesIn U g → size (U ∖ processedTypes g) < fuel →
              is_Some (generateFieldsLog (generateLog fuel) key fs g).
Proof.
  intros Hrec key fs. induction fs as [|f rest IH]; intros g HU Hsz; simpl.
  - by eexists.
  - destruct (customStruct g (childType f)) as [child|] eqn:Hc; [|by apply IH].
    destruct (Hrec child (key +:+ jsonName f) g HU (HU _ _ Hc) Hsz)
      as [[[[e|] g1] l] Hcall]; rewrite Hcall; [by eexists|].
    apply generateLog_grows in Hcall.
    destruct (IH g1) as [[[r g2] l2] ->]; [by eapply grows_namesIn| |by eexists].
    pose proof (size_unprocessed_mono U _ _ (grows_processed _ _ _ Hcall)).
    lia.
Qed.

Lemma generateLog_returns (fuel : nat) (U : gset string) (st : structType)
    (key : string) (g : CodeGenerator) :
  namesIn U g → name st ∈ U → size (U ∖ processedTypes g) < fuel →
  is_Some (generateLog fuel st key g).
Proof.
  revert st key g. induction fuel as [|fuel IH]; intros st key g HU Hst Hsz;
    [lia|].
  simpl. destruct (decide (name st ∈ processedTypes g)) as [|Hnew];
    [by eexists|].
  destruct (writes_synthesis st key (markProcessed (name st) g)) as [out Hout].
  destruct ((generateIsSet st key >> generateReset st key >>
             generateValidation st key) (markProcessed (name st) g))
    as [[e|] g1]; simpl in Hout; subst g1; [by eexists|].
  destruct (generateFieldsLog_returns fuel U IH (dotted key) (fields st)
              (Fprint out (markProcessed (name st) g)))
    as [[[r g2] l2] ->]; [done| |by eexists].
  simpl. by apply size_unprocessed_mark.
Qed.

(** More fuel changes nothing once a call returns. *)
Lemma generateFieldsLog_mono (rec1 rec2 : visitLog) :
  (∀ st key g res, rec1 st key g = Some res → rec2 st key g = Some res) →
  ∀ key fs g res,
    generateFieldsLog rec1 key fs g = Some res →
    generateFieldsLog rec2 key fs g = Some res.
Proof.
  intros Hrec key fs. induction fs as [|f rest IH]; intros g res; simpl;
    [done|].
  destruct (customStruct g (childType f)) as [child|]; [|apply IH].
  destruct (rec1 child (key +:+ jsonName f) g) as [[[[e|] g1] l]|] eqn:Hc;
    [| |done].
  - apply Hrec in Hc as ->. done.
  - apply Hrec in Hc as ->.
    destruct (generateFieldsLog rec1 key rest g1) as [res1|] eqn:Hr; [|done].
    apply IH in Hr as ->. done.
Qed.

Lemma generateLog_S (fuel : nat) (st : structType) (key : string)
    (g : CodeGenerator) (res : option error * CodeGenerator * list string) :
  generateLog fuel st key g = Some res →
  generateLog (S fuel) st key g = Some res.
Proof.
  revert st key g res. induction fuel as [|fuel IH]; intros st key g res;
    [done|].
  intros Hrun. change (generateLog (S fuel) st key g) with
    (if decide (name st ∈ processedTypes g) then Some (None, g, [])
     else
       match (generateIsSet st key >> generateReset st key >>
              generateValidation st key) (markProcessed (name st) g) with
       | (Some err, g') => Some (Some err, g', [name st])
       | (None, g') =>
           match generateFieldsLog (generateLog fuel) (dotted key)
                   (fields st) g' with
           | Some (r, g'', l) => Some (r, g'', name st :: l)
           | None => None
           end
       end) in Hrun.
  change (generateLog (S (S fuel)) st key g) with
    (if decide (name st ∈ processedTypes g) then Some (None, g, [])
     else
       match (generateIsSet st key >> generateReset st key >>
              generateValidation st key) (markProcessed (name st) g) with
       | (Some err, g') => Some (Some err, g', [name st])
       | (None, g') =>
           match generateFieldsLog (generateLog (S fuel)) (dotted key)
                   (fields st) g' with
           | Some (r, g'', l) => Some (r, g'', name st :: l)
           | None => None
           end
       end).
  destruct (decide (name st ∈ processedTypes g)); [done|].
  destruct ((generateIsSet st key >> generateReset st key >>
             generateValidation st key) (markProcessed (name st) g))
    as [[e|] g1]; [done|].
  destruct (generateFieldsLog (generateLog fuel) _ _ _) as [res1|] eqn:Hfs;
    [|done].
  by rewrite (generateFieldsLog_mono _ _ IH _ _ _ _ Hfs).
Qed.

Lemma generateLog_mono (fuel fuel' : nat) (st : structType) (key : string)
    (g : CodeGenerator) (res : option error * CodeGenerator * list string) :
  fuel ≤ fuel' →
  generateLog fuel st key g = Some res →
  generateLog fuel' st key g = Some res.
Proof.
  induction 1 as [|fuel' _ IH]; [done|].
  intros Hrun. by apply generateLog_S, IH.
Qed.

Lemma generateRootsLog_mono (fuel fuel' : nat) (roots : list structType)
    (g : CodeGenerator) (res : option error * CodeGenerator * list string) :
  fuel ≤ fuel' →
  generateRootsLog (generateLog fuel) roots g = Some res →
  generateRootsLog (generateLog fuel') roots g = Some res.
Proof.
  intros Hle. revert g res.
  induction roots as [|rt rest IH]; intros g res; simpl; [done|].
  destruct (generateLog fuel rt EmptyString g) as [[[[e|] g1] l]|] eqn:Hc;
    [| |done].
  - by rewrite (generateLog_mono _ _ _ _ _ _ Hle Hc).
  - rewrite (generateLog_mono _ _ _ _ _ _ Hle Hc).
    destruct (generateRootsLog (generateLog fuel) rest g1) as [res1|] eqn:Hr;
      [|done].
    by rewrite (IH _ _ Hr).
Qed.

Lemma size_unprocessed_enough (g : CodeGenerator) (n : string) :
  size ((typeNames (parsed g) ∪ {[n]}) ∖ processedTypes g) < enoughFuel g.
Proof.
  unfold enoughFuel.
  pose proof (size_typeNames (parsed g)) as Hn.
  assert (size ((typeNames (parsed g) ∪ {[n]}) ∖ processedTypes g)
          ≤ size (typeNames (parsed g) ∪ {[n]})) as Hle
    by (apply subseteq_size; set_solver).
  assert (size (typeNames (parsed g) ∪ {[n]})
          ≤ size (typeNames (parsed g)) + 1) as Hun.
  { rewrite (size_union_alt (C:=gset string)).
    assert (size (({[n]} : gset string) ∖ typeNames (parsed g))
            ≤ size ({[n]} : gset string)) as Hs
      by (apply subseteq_size; set_solver).
    rewrite size_singleton in Hs. lia. }
  lia.
Qed.

Lemma generateLog_enough (st : structType) (key : string) (g : CodeGenerator) :
  is_Some (generateLog (enoughFuel g) st key g).
Proof.
  apply (generateLog_returns _ (typeNames (parsed g) ∪ {[name st]})).
  - apply namesIn_typeNames.
  - set_solver.
  - apply size_unprocessed_enough.
Qed.

Lemma enoughFuel_grows (g g' : CodeGenerator) (l : list string) :
  grows g g' l → enoughFuel g' = enoughFuel g.
Proof. intros (_ & _ & _ & Hp & _). unfold enoughFuel. by rewrite Hp. Qed.

Lemma generateRootsLog_enough (fuel : nat) (roots : list structType)
    (g : CodeGenerator) :
  enoughFuel g ≤ fuel →
  is_Some (generateRootsLog (generateLog fuel) roots g).
Proof.
  revert g. induction roots as [|rt rest IH]; intros g Hle; simpl;
    [by eexists|].
  destruct (generateLog_enough rt EmptyString g) as [[[[e|] g1] l] Hc];
    apply (generateLog_mono _ fuel) in Hc; try done; rewrite Hc;
    [by eexists|].
  apply generateLog_grows in Hc.
  destruct (IH g1) as [[[r g2] l2] ->]; [|by eexists].
  by rewrite (enoughFuel_grows _ _ _ Hc).
Qed.

End Termination.

(** ** [sortKeys] and the header *)

Local Open Scope string_scope.

Lemma sortKeys_Sorted (order : list string) : Sorted String.le (sortKeys order).
Proof. apply (Sorted_merge_sort String.le). Qed.

Lemma sortKeys_Permutation (order : list string) : sortKeys order ≡ₚ order.
Proof. apply merge_sort_Permutation. Qed.

(** The result of [sortKeys] does not depend on the order in which the
    keys of the map were enumerated. *)
Lemma sortKeys_order (input : gmap string string) (o1 o2 : list string) :
  rangeOf input o1 → rangeOf input o2 → sortKeys o1 = sortKeys o2.
Proof.
  unfold rangeOf. intros H1 H2.
  apply (Sorted_unique String.le); try apply sortKeys_Sorted.
  by rewrite !sortKeys_Permutation, H1, H2.
Qed.

Lemma fold_patternVars (ks : list string) (g : CodeGenerator) :
  fold_left (fun g n => Fprint (patternVar n) g) ks g = Fprint (patternVars ks) g.
Proof.
  revert g. induction ks as [|n rest IH]; intros g; simpl.
  - by rewrite Fprint_empty.
  - by rewrite IH, Fprint_Fprint.
Qed.

Lemma writeHeader_eq (order : list string) (g : CodeGenerator) :
  writeHeader order g =
    Fprint (fileHeader (pkgName (parsed g))
              +:+ patternVars (sortKeys order) +:+ varEnd) g.
Proof.
  unfold writeHeader. rewrite fold_patternVars, !Fprint_Fprint.
  by rewrite ?StrFacts.app_assoc.
Qed.

Lemma writeHeader_grows (order : list string) (g : CodeGenerator) :
  grows g (writeHeader order g) [].
Proof.
  rewrite writeHeader_eq. repeat split; simpl; [constructor|set_solver..|].
  by eexists.
Qed.

(** ** [Generate] *)

Section GenerateRun.

Lemma generate_grows (fuel : nat) (st : structType) (key : string)
    (g : CodeGenerator) (r : option error) (g' : CodeGenerator) :
  generate fuel st key g = Some (r, g') → ∃ l, grows g g' l.
Proof.
  rewrite <- generateLog_forget.
  destruct (generateLog fuel st key g) as [[[r1 g1] l]|] eqn:Hrun; [|done].
  intros [= <- <-]. exists l. by eapply generateLog_grows.
Qed.

Lemma generateRoots_grows (fuel : nat) (roots : list structType)
    (g : CodeGenerator) (r : option error) (g' : CodeGenerator) :
  generateRoots (generate fuel) roots g = Some (r, g') → ∃ l, grows g g' l.
Proof.
  rewrite <- generateRootsLog_forget.
  destruct (generateRootsLog _ roots g) as [[[r1 g1] l]|] eqn:Hrun; [|done].
  intros [= <- <-]. exists l. by eapply generateRootsLog_grows.
Qed.

Lemma generateRoots_app (rec : visit) (pre post : list structType)
    (g : CodeGenerator) :
  generateRoots rec (pre ++ post) g =
    match generateRoots rec pre g with
    | Some (None, g1) => generateRoots rec post g1
    | stop => stop
    end.
Proof.
  revert g. induction pre as [|rt pre IH]; intros g; simpl; [done|].
  destruct (rec rt EmptyString g) as [[[e|] g1]|]; [done| |done]. apply IH.
Qed.

Lemma GenerateWith_forget (fuel : nat) (order : list string)
    (g : CodeGenerator) :
  GenerateWith fuel order g =
    match GenerateLog fuel order g with
    | Some (r, g', _) =>
        Some (buf g', (fun err => Wrap err "code generator") <$> r, g')
    | None => None
    end.
Proof.
  unfold GenerateWith, GenerateLog. rewrite <- generateRootsLog_forget.
  by destruct (generateRootsLog _ _ _) as [[[[e|] g1] l]|].
Qed.

Lemma GenerateLog_enough (order : list string) (g : CodeGenerator) :
  ∃ r g' l,
    (∀ fuel, enoughFuel g ≤ fuel →
             GenerateLog fuel order g = Some (r, g', l))%nat
    ∧ grows g g' l.
Proof.
  pose proof (writeHeader_grows order g) as Hh.
  destruct (generateRootsLog_enough (enoughFuel g) (rootObjs g)
              (writeHeader order g)) as [[[r g'] l] Hrun].
  { by rewrite (enoughFuel_grows _ _ _ Hh). }
  exists r, g', l. split.
  - intros fuel Hle. unfold GenerateLog.
    by apply (generateRootsLog_mono (enoughFuel g)).
  - apply generateRootsLog_grows in Hrun.
    exact (grows_trans _ _ _ [] l Hh Hrun).
Qed.

(** C1: the recursive step returns at once, without a change to the
    generator, for a type whose name is in the processed set; whatever
    the references between the types, shared or cyclic, a call returns
    once it is given fuel for the number of types of the package, its
    result is then the same for every amount of fuel, the names it has
    processed are pairwise different and were not processed before, and
    they are what is added to the processed set; the same holds of a
    whole run of [Generate]. *)
Theorem generate_processes_once (st : structType) (key : string)
    (g : CodeGenerator) :
  (name st ∈ processedTypes g →
   ∀ fuel, generate (S fuel) st key g = Some (None, g))
  ∧ (∃ r g' l,
       (∀ fuel, (enoughFuel g ≤ fuel)%nat →
                generateLog fuel st key g = Some (r, g', l)
                ∧ generate fuel st key g = Some (r, g'))
       ∧ NoDup l
       ∧ (∀ n, n ∈ l → n ∉ processedTypes g)
       ∧ processedTypes g' = list_to_set l ∪ processedTypes g)
  ∧ (∀ order, ∃ r g' l,
       (∀ fuel, (enoughFuel g ≤ fuel)%nat →
                GenerateLog fuel order g = Some (r, g', l)
                ∧ GenerateWith fuel order g =
                    Some (buf g',
                          (fun err => Wrap err "code generator") <$> r, g'))
       ∧ NoDup l
       ∧ (∀ n, n ∈ l → n ∉ processedTypes g)
       ∧ processedTypes g' = list_to_set l ∪ processedTypes g).
Proof.
  split; [|split].
  - intros Hin fuel. simpl. by rewrite decide_True.
  - destruct (generateLog_enough st key g) as [[[r g'] l] Hrun].
    exists r, g', l.
    destruct (generateLog_grows _ _ _ _ _ _ _ Hrun) as (Hd & Hn & Hp & _).
    split; [|done]. intros fuel Hle.
    apply (generateLog_mono _ fuel) in Hrun; [|done]. split; [done|].
    by rewrite <- generateLog_forget, Hrun.
  - intros order.
    destruct (GenerateLog_enough order g) as (r & g' & l & Hrun & Hgrow).
    exists r, g', l.
    destruct Hgrow as (Hd & Hn & Hp & _).
    split; [|done]. intros fuel Hle. split; [by apply Hrun|].
    by rewrite GenerateWith_forget, Hrun.
Qed.

End GenerateRun.

(** ** Determinism *)

Section Determinism.

Lemma patternVars_foldr (ks : list string) :
  patternVars ks =
    foldr (fun n acc => n +:+ "Regexp = regexp.MustCompile(" +:+ n +:+ ")"
                          +:+ nl +:+ acc) EmptyString ks.
Proof.
  induction ks as [|n rest IH]; [reflexivity|]. simpl. rewrite <- IH.
  unfold patternVar. by rewrite ?StrFacts.app_assoc.
Qed.

(** C2: whatever the order in which the keys of the pattern variables
    are enumerated, [Generate] returns the same buffer, error and
    generator, and it does return; the buffer continues the previous
    content with the file header, one declaration
    [nRegexp = regexp.MustCompile(n)] for each key [n] of the map, in the
    bytewise lexicographic order of the keys, and the closing
    parenthesis. *)
Theorem Generate_deterministic (g : CodeGenerator) (o1 o2 : list string) :
  rangeOf (patternVariables (parsed g)) o1 →
  rangeOf (patternVariables (parsed g)) o2 →
  Generate o1 g = Generate o2 g
  ∧ ∃ out err g' ks rest,
      Generate o1 g = Some (out, err, g')
      ∧ out = buf g
          +:+ ("// Code generated by " +:+ dquote +:+ "modeldecoder/generator"
                 +:+ dquote +:+ ". DO NOT EDIT." +:+ nl
                 +:+ nl
                 +:+ "package " +:+ pkgName (parsed g) +:+ nl
                 +:+ nl
                 +:+ "import (" +:+ nl
                 +:+ tab +:+ dquote +:+ "fmt" +:+ dquote +:+ nl
                 +:+ tab +:+ dquote +:+ "encoding/json" +:+ dquote +:+ nl
                 +:+ tab +:+ dquote +:+ "github.com/pkg/errors" +:+ dquote +:+ nl
                 +:+ tab +:+ dquote +:+ "regexp" +:+ dquote +:+ nl
                 +:+ tab +:+ dquote +:+ "unicode/utf8" +:+ dquote +:+ nl
                 +:+ ")" +:+ nl
                 +:+ nl
                 +:+ "var (" +:+ nl)
          +:+ foldr (fun n acc => n +:+ "Regexp = regexp.MustCompile(" +:+ n
                                    +:+ ")" +:+ nl +:+ acc) EmptyString ks
          +:+ (")" +:+ nl)
          +:+ rest
      ∧ Sorted String.le ks
      ∧ ks ≡ₚ (map_to_list (patternVariables (parsed g))).*1.
Proof.
  intros H1 H2. split.
  - unfold Generate, GenerateWith, writeHeader.
    by rewrite (sortKeys_order _ o1 o2 H1 H2).
  - destruct (GenerateLog_enough o1 g) as (r & g' & l & Hrun & _).
    specialize (Hrun (enoughFuel g) (le_n _)).
    pose proof Hrun as Hgrow. unfold GenerateLog in Hgrow.
    apply generateRootsLog_grows in Hgrow
      as (_ & _ & _ & _ & _ & rest & Hbuf).
    rewrite writeHeader_eq in Hbuf. simpl in Hbuf.
    eexists _, _, g', (sortKeys o1), rest. split; [|split; [|split]].
    + unfold Generate. by rewrite GenerateWith_forget, Hrun.
    + rewrite Hbuf, <- patternVars_foldr.
      change ("// Code generated by " +:+ dquote +:+ "modeldecoder/generator"
                 +:+ dquote +:+ ". DO NOT EDIT." +:+ nl
                 +:+ nl
                 +:+ "package " +:+ pkgName (parsed g) +:+ nl
                 +:+ nl
                 +:+ "import (" +:+ nl
                 +:+ tab +:+ dquote +:+ "fmt" +:+ dquote +:+ nl
                 +:+ tab +:+ dquote +:+ "encoding/json" +:+ dquote +:+ nl
                 +:+ tab +:+ dquote +:+ "github.com/pkg/errors" +:+ dquote +:+ nl
                 +:+ tab +:+ dquote +:+ "regexp" +:+ dquote +:+ nl
                 +:+ tab +:+ dquote +:+ "unicode/utf8" +:+ dquote +:+ nl
                 +:+ ")" +:+ nl
                 +:+ nl
                 +:+ "var (" +:+ nl)
        with (fileHeader (pkgName (parsed g))).
      change (")" +:+ nl) with varEnd.
      by rewrite ?StrFacts.app_assoc.
    + apply sortKeys_Sorted.
    + by rewrite sortKeys_Permutation.
Qed.

End Determinism.

(** ** Errors

    The steps of a run, and where an error ends it. *)

Section Abort.

Lemma forgetLog_is_Some {A B C : Type} (x : option (A * B * C)) :
  is_Some (forgetLog x) → is_Some x.
Proof. destruct x; [by eexists|]. by intros [? ?]. Qed.

Lemma generateFieldsTrace_forget (recT : visitTrace) (rec : visit) :
  (∀ st key g, forgetLog (recT st key g) = rec st key g) →
  ∀ key fs g,
    forgetLog (generateFieldsTrace recT key fs g) = generateFields rec key fs g.
Proof.
  intros Hrec key fs. induction fs as [|f rest IH]; intros g; simpl; [done|].
  destruct (customStruct g (childType f)) as [child|]; [|apply IH].
  rewrite <- Hrec.
  destruct (recT child (key +:+ jsonName f) g) as [[[[e|] g1] tr]|]; simpl;
    [done| |done].
  rewrite <- IH.
  by destruct (generateFieldsTrace recT key rest g1) as [[[r g2] tr2]|].
Qed.

Lemma generateTrace_forget (fuel : nat) (st : structType) (key : string)
    (g : CodeGenerator) :
  forgetLog (generateTrace fuel st key g) = generate fuel st key g.
Proof.
  revert st key g. induction fuel as [|fuel IH]; intros st key g; simpl;
    [done|].
  destruct (decide (name st ∈ processedTypes g)); [done|].
  destruct ((generateIsSet st key >> generateReset st key >>
             generateValidation st key) (markProcessed (name st) g))
    as [[e|] g1]; [done|].
  rewrite <- (generateFieldsTrace_forget (generateTrace fuel) (generate fuel) IH).
  by destruct (generateFieldsTrace _ _ _ _) as [[[r g2] tr2]|].
Qed.

Lemma generateRootsTrace_forget (fuel : nat) (roots : list structType)
    (g : CodeGenerator) :
  forgetLog (generateRootsTrace (generateTrace fuel) roots g)
  = generateRoots (generate fuel) roots g.
Proof.
  revert g. induction roots as [|r rest IH]; intros g; simpl; [done|].
  rewrite <- generateTrace_forget.
  destruct (generateTrace fuel r EmptyString g) as [[[[e|] g1] tr]|]; simpl;
    [done| |done].
  rewrite <- IH.
  by destruct (generateRootsTrace _ rest g1) as [[[r2 g2] tr2]|].
Qed.

Lemma GenerateWith_trace (fuel : nat) (order : list string)
    (g : CodeGenerator) :
  GenerateWith fuel order g =
    match GenerateTrace fuel order g with
    | Some (r, g', _) =>
        Some (buf g', (fun err => "code generator: " +:+ err) <$> r, g')
    | None => None
    end.
Proof.
  unfold GenerateWith, GenerateTrace. rewrite <- generateRootsTrace_forget.
  by destruct (generateRootsTrace _ _ _) as [[[[e|] g1] tr]|].
Qed.

Lemma traced_app (r : option error) (g' : CodeGenerator)
    (tr1 tr2 : list step) :
  stepsOk tr1 → traced r g' tr2 → traced r g' (tr1 ++ tr2).
Proof.
  intros H1. destruct r as [e|]; simpl.
  - intros (pre & s & -> & Hpre & Hs). exists (tr1 ++ pre)%list, s.
    split; [by rewrite <- app_assoc|]. split; [by apply Forall_app|done].
  - intros H2. by apply Forall_app.
Qed.

Lemma generateFieldsTrace_traced (rec : visitTrace) :
  (∀ st key g r g' tr, rec st key g = Some (r, g', tr) → traced r g' tr) →
  ∀ key fs g r g' tr,
    generateFieldsTrace rec key fs g = Some (r, g', tr) → traced r g' tr.
Proof.
  intros Hrec key fs. induction fs as [|f rest IH]; intros g r g' tr; simpl.
  - intros [= <- <- <-]. constructor.
  - destruct (customStruct g (childType f)) as [child|]; [|apply IH].
    destruct (rec child (key +:+ jsonName f) g) as [[[[e|] g1] tr1]|] eqn:Hc;
      [|destruct (generateFieldsTrace rec key rest g1) as [[[r2 g2] tr2]|] eqn:Hr|];
      intros [= <- <- <-].
    + by eapply Hrec.
    + apply traced_app; [exact (Hrec _ _ _ _ _ _ Hc)|by eapply IH].
Qed.

Lemma generateTrace_traced (fuel : nat) (st : structType) (key : string)
    (g : CodeGenerator) (r : option error) (g' : CodeGenerator)
    (tr : list step) :
  generateTrace fuel st key g = Some (r, g', tr) → traced r g' tr.
Proof.
  revert st key g r g' tr.
  induction fuel as [|fuel IH]; intros st key g r g' tr; simpl; [done|].
  destruct (decide (name st ∈ processedTypes g)) as [|Hnew].
  { intros [= <- <- <-]. constructor. }
  destruct ((generateIsSet st key >> generateReset st key >>
             generateValidation st key) (markProcessed (name st) g))
    as [[e|] g1] eqn:Hsyn.
  - intros [= <- <- <-].
    exists [], {| stepType := st; stepKey := key;
                  stepFrom := markProcessed (name st) g |}.
    split; [done|]. split; [constructor|]. exact Hsyn.
  - destruct (generateFieldsTrace _ _ _ _) as [[[r2 g2] tr2]|] eqn:Hfs;
      intros [= <- <- <-].
    apply (traced_app _ _ [{| stepType := st; stepKey := key;
                              stepFrom := markProcessed (name st) g |}] tr2).
    + constructor; [|constructor]. unfold runStep, synthesize. simpl.
      by rewrite Hsyn.
    + eapply generateFieldsTrace_traced; [|exact Hfs]. apply IH.
Qed.

Lemma generateRootsTrace_traced (fuel : nat) (roots : list structType)
    (g : CodeGenerator) (r : option error) (g' : CodeGenerator)
    (tr : list step) :
  generateRootsTrace (generateTrace fuel) roots g = Some (r, g', tr) →
  traced r g' tr.
Proof.
  revert g r g' tr. induction roots as [|rt rest IH]; intros g r g' tr; simpl.
  - intros [= <- <- <-]. constructor.
  - destruct (generateTrace fuel rt EmptyString g) as [[[[e|] g1] tr1]|] eqn:Hc;
      [|destruct (generateRootsTrace _ rest g1) as [[[r2 g2] tr2]|] eqn:Hr|];
      intros [= <- <- <-].
    + by eapply generateTrace_traced.
    + apply traced_app; [exact (generateTrace_traced _ _ _ _ _ _ _ Hc)|
                         by eapply IH].
Qed.

(** A failing step of a traced run is its last step. *)
Lemma traced_failing_step (r : option error) (g' : CodeGenerator)
    (tr pre : list step) (s : step) (post : list step) (e : error)
    (g1 : CodeGenerator) :
  traced r g' tr → tr = (pre ++ s :: post)%list → runStep s = (Some e, g1) →
  post = [] ∧ r = Some e ∧ g' = g1.
Proof.
  intros Htr -> Hs.
  assert (¬ stepsOk (pre ++ s :: post)) as Hbad.
  { intros Hok. apply Forall_app in Hok as [_ Hok].
    inversion Hok as [|? ? Hs0 _]; subst. by rewrite Hs in Hs0. }
  destruct r as [e0|]; simpl in Htr; [|done].
  destruct Htr as (pre0 & s0 & Heq & Hpre0 & Hs0).
  destruct post as [|p post _] using rev_ind.
  - apply app_inj_tail in Heq as [-> ->].
    rewrite Hs in Hs0. by injection Hs0 as -> ->.
  - exfalso. rewrite app_comm_cons, app_assoc in Heq.
    apply app_inj_tail in Heq as [<- _]. apply Hbad.
    apply Forall_app in Hpre0 as [Hp1 Hp2].
    inversion Hp2 as [|? ? Hs1 _]; subst. by rewrite Hs in Hs1.
Qed.

(** C9, as the code has it: in a run of [Generate], a synthesis step that
    returns an error is the last step of the run: no type is processed
    after it, in the failing type, in the types it is nested in or among
    the roots that follow; [Generate] returns that error wrapped with
    [code generator] and the generator as the failing step left it; and
    an error that [Generate] returns is the error of the last step. The
    buffer returned with the error is the buffer of that generator: the
    header and whatever had been emitted up to the failure. A run returns
    once it is given fuel for the number of struct types. *)
Theorem Generate_aborts (fuel : nat) (order : list string)
    (g : CodeGenerator) :
  ((enoughFuel g ≤ fuel)%nat → is_Some (GenerateTrace fuel order g))
  ∧ ∀ r g' tr,
      GenerateTrace fuel order g = Some (r, g', tr) →
      GenerateWith fuel order g
        = Some (buf g', (fun e => "code generator: " +:+ e) <$> r, g')
      ∧ (∀ pre s post e g1,
           tr = (pre ++ s :: post)%list → runStep s = (Some e, g1) →
           post = [] ∧ r = Some e ∧ g' = g1)
      ∧ (∀ e, r = Some e →
              ∃ pre s, tr = (pre ++ [s])%list ∧ runStep s = (Some e, g'))
      ∧ ∃ out, buf g' = buf (writeHeader order g) +:+ out.
Proof.
  split.
  - intros Hle. apply forgetLog_is_Some. unfold GenerateTrace.
    rewrite generateRootsTrace_forget, <- generateRootsLog_forget.
    destruct (generateRootsLog_enough fuel (rootObjs g) (writeHeader order g))
      as [[[r g'] l] ->]; [|by eexists].
    by rewrite (enoughFuel_grows _ _ _ (writeHeader_grows order g)).
  - intros r g' tr Hrun.
    pose proof (generateRootsTrace_traced _ _ _ _ _ _ Hrun) as Htr.
    split; [by rewrite GenerateWith_trace, Hrun|]. split; [|split].
    + intros pre s post e g1 Heq Hs.
      by apply (traced_failing_step r g' tr pre s post e g1).
    + intros e ->. destruct Htr as (pre & s & -> & _ & Hs). by exists pre, s.
    + assert (generateRoots (generate fuel) (rootObjs g) (writeHeader order g)
              = Some (r, g')) as Hroots.
      { rewrite <- generateRootsTrace_forget.
        unfold GenerateTrace in Hrun. by rewrite Hrun. }
      apply generateRoots_grows in Hroots as (l & _ & _ & _ & _ & _ & Hb).
      exact Hb.
Qed.

End Abort.

(** * Further properties *)

(** ** [NewCodeGenerator] *)

Lemma lookupRoots_ok (p : Parsed) (rootTypes : list string) :
  Forall (fun r => is_Some (structTypes p !! r)) rootTypes →
  ∃ objs, lookupRoots p rootTypes = inr objs
          ∧ Forall2 (fun r o => structTypes p !! r = Some o) rootTypes objs.
Proof.
  induction 1 as [|r rest [o Ho] _ (objs & Hobjs & Hall)]; simpl.
  - exists []. by split.
  - rewrite Ho, Hobjs. exists (o :: objs). split; [done|]. by constructor.
Qed.

(** When every requested root is a key of the parsed struct types,
    [NewCodeGenerator] returns a generator with an empty buffer and an
    empty processed set, over the same package, whose root objects are the
    struct types found under the root keys, in the order of the request. *)
Theorem NewCodeGenerator_roots (p : Parsed) (rootTypes : list string) :
  Forall (fun r => is_Some (structTypes p !! r)) rootTypes →
  ∃ g, NewCodeGenerator p rootTypes = inr g
       ∧ buf g = EmptyString
       ∧ processedTypes g = ∅
       ∧ parsed g = p
       ∧ Forall2 (fun r o => structTypes p !! r = Some o) rootTypes (rootObjs g).
Proof.
  intros Hall. destruct (lookupRoots_ok p rootTypes Hall) as (objs & Ho & Hf).
  unfold NewCodeGenerator. rewrite Ho. eexists. split; [done|]. by simpl.
Qed.

(** [NewCodeGenerator] fails at the first requested root that is not a key
    of the parsed struct types, with an error that names that root; the
    roots after it are not looked at. *)
Theorem NewCodeGenerator_unknown_root (p : Parsed) (pre : list string)
    (r : string) (post : list string) :
  Forall (fun r' => is_Some (structTypes p !! r')) pre →
  structTypes p !! r = None →
  NewCodeGenerator p (pre ++ r :: post)
  = inl ("object with root key " +:+ r +:+ " not found").
Proof.
  intros Hpre Hr. unfold NewCodeGenerator.
  assert (lookupRoots p (pre ++ r :: post)
          = inl ("object with root key " +:+ r +:+ " not found")) as ->; [|done].
  induction Hpre as [|r' rest [o Ho] _ IH]; simpl.
  - by rewrite Hr.
  - by rewrite Ho, IH.
Qed.

(** ** [parseTag] *)

Lemma Split_cons (c : ascii) (s : string) :
  Split (String c s) =
    if Ascii.eqb c ","%char then EmptyString :: Split s
    else match Split s with
         | p :: ps => String c p :: ps
         | [] => [String c EmptyString]
         end.
Proof. reflexivity. Qed.

Lemma Join_Split (s : string) : Join "," (Split s) = s.
Proof.
  induction s as [|c s IH]; [reflexivity|]. rewrite Split_cons.
  pose proof (StrFacts.Split_nonempty s) as Hne.
  destruct (Ascii.eqb c ",") eqn:E.
  - apply Ascii.eqb_eq in E as ->.
    destruct (Split s) as [|q qs]; [done|].
    change (Join "," (EmptyString :: q :: qs))
      with (EmptyString +:+ "," +:+ Join "," (q :: qs)).
    by rewrite IH.
  - destruct (Split s) as [|q qs]; [done|].
    destruct qs as [|q' qs]; simpl in *; by rewrite <- IH.
Qed.

Lemma Split_no_comma (s : string) :
  Forall (fun part => hasComma part = false) (Split s).
Proof.
  induction s as [|c s IH]; [by repeat constructor|]. rewrite Split_cons.
  destruct (Ascii.eqb c ",") eqn:E; [by constructor|].
  destruct (Split s) as [|q qs]; [repeat constructor; simpl; by rewrite E|].
  inversion IH; subst. constructor; [|done]. simpl. by rewrite E.
Qed.

(** For a tag that is present under the given name and is not [-],
    [parseTag] returns at least one part, no part contains a comma, and
    joining the parts with commas gives the tag value back: the options
    after the name are kept, in order. *)
Theorem parseTag_parts (structTag : StructTag) (tagName value : string) :
  Lookup structTag tagName = Some value →
  value ≠ "-" →
  parseTag structTag tagName ≠ []
  ∧ Forall (fun part => hasComma part = false) (parseTag structTag tagName)
  ∧ Join "," (parseTag structTag tagName) = value.
Proof.
  intros Hl Hv. unfold parseTag. rewrite Hl.
  destruct (String.eqb_spec value "-"); [done|].
  split; [apply StrFacts.Split_nonempty|]. split; [apply Split_no_comma|].
  apply Join_Split.
Qed.

(** A tag that is absent and a tag that is [-] are not told apart by
    [parseTag]: both give no parts. *)
Theorem parseTag_empty_iff (structTag : StructTag) (tagName : string) :
  parseTag structTag tagName = [] ↔
  Lookup structTag tagName = None ∨ Lookup structTag tagName = Some "-".
Proof.
  unfold parseTag. destruct (Lookup structTag tagName) as [v|]; [|by intuition].
  destruct (String.eqb_spec v "-") as [->|Hne].
  - by intuition.
  - split.
    + intros Hs. by destruct (StrFacts.Split_nonempty v).
    + intros [?|[= ->]]; done.
Qed.

(** ** [generateIsSet]: when it succeeds, and how it fails *)

Lemma supported_dec (f : structField) : {supported f} + {¬ supported f}.
Proof. unfold supported. destruct (Underlying (Typ f)); auto. Qed.

Lemma isSetFields_error_iff (key : string) (fs : list structField)
    (pre : string) (g : CodeGenerator) :
  (isSetFields key fs pre g).1 = None ↔
  Forall supported (List.filter Exported fs).
Proof.
  revert pre g. induction fs as [|f rest IH]; intros pre g; simpl.
  - split; [constructor|done].
  - destruct (Exported f) eqn:Hex; simpl; [|apply IH].
    unfold andThen, emit, fail.
    destruct (Underlying (Typ f)) as [e|e| |t] eqn:Hu; simpl.
    + rewrite IH. split; [intros; constructor; [unfold supported; by rewrite Hu|done]
                         |by inversion 1].
    + rewrite IH. split; [intros; constructor; [unfold supported; by rewrite Hu|done]
                         |by inversion 1].
    + rewrite IH. split; [intros; constructor; [unfold supported; by rewrite Hu|done]
                         |by inversion 1].
    + split; [done|]. inversion 1 as [|? ? Hs _]; subst.
      unfold supported in Hs. by rewrite Hu in Hs.
Qed.

(** [generateIsSet] returns no error exactly when the type has at least one
    field, exported or not, and every exported field has a slice, a map or
    a struct as its underlying type. *)
Theorem generateIsSet_succeeds_iff (structTyp : structType) (key : string)
    (g : CodeGenerator) :
  (generateIsSet structTyp key g).1 = None ↔
  fields structTyp ≠ []
  ∧ Forall supported (List.filter Exported (fields structTyp)).
Proof.
  unfold generateIsSet.
  destruct (length (fields structTyp) =? 0)%nat eqn:E.
  - apply Nat.eqb_eq in E. split; [done|]. intros [Hne _].
    by destruct (fields structTyp).
  - assert (fields structTyp ≠ []) as Hne.
    { intros Hnil. by rewrite Hnil in E. }
    rewrite <- (isSetFields_error_iff (dotted key) (fields structTyp)
                  EmptyString (Fprint (isSetHeader (name structTyp)) g)).
    unfold andThen, emit at 1.
    destruct (isSetFields (dotted key) (fields structTyp) EmptyString _)
      as [[e|] g1]; simpl.
    + split; [done|]. by intros [_ ?].
    + split; [|done]. intros _. by split.
Qed.

(** What the loop has written, and the prefix it continues with, after a
    run of fields that are all supported. *)
Lemma isSetFields_app (key : string) (done_ rest : list structField)
    (pre : string) (g : CodeGenerator) :
  Forall supported (List.filter Exported done_) →
  isSetFields key (done_ ++ rest) pre g =
    isSetFields key rest
      (match List.filter Exported done_ with [] => pre | _ => " ||" end)
      (Fprint (orTail pre (List.filter Exported done_)) g).
Proof.
  revert pre g. induction done_ as [|f fs IH]; intros pre g; simpl.
  - intros _. by rewrite Fprint_empty.
  - destruct (Exported f) eqn:Hex; simpl; intros Hall; [|by apply IH].
    inversion Hall as [|? ? Hs Hrest]; subst.
    unfold andThen, emit. unfold supported in Hs.
    destruct (Underlying (Typ f)) as [e|e| |t] eqn:Hu; [| | |done].
    + rewrite IH by done. rewrite Fprint_Fprint.
      rewrite (isSetLen_disjunct pre f e) by auto.
      rewrite ?StrFacts.app_assoc.
      by destruct (List.filter Exported fs).
    + rewrite IH by done. rewrite Fprint_Fprint.
      rewrite (isSetLen_disjunct pre f e) by auto.
      rewrite ?StrFacts.app_assoc.
      by destruct (List.filter Exported fs).
    + rewrite IH by done. rewrite Fprint_Fprint.
      rewrite (isSetCall_disjunct pre f) by auto.
      rewrite ?StrFacts.app_assoc.
      by destruct (List.filter Exported fs).
Qed.

Lemma generateIsSet_stops (structTyp : structType) (key : string)
    (g : CodeGenerator) (pre : list structField) (f : structField)
    (post : list structField) (t : string) :
  fields structTyp = (pre ++ f :: post)%list →
  Forall supported (List.filter Exported pre) →
  Exported f = true →
  Underlying (Typ f) = Other t →
  generateIsSet structTyp key g =
    (Some ("unhandled type " +:+ t +:+ " for IsSet() for '"
             +:+ flattenName key f +:+ "'"),
     Fprint (isSetHeader (name structTyp)
               +:+ returnOperand (List.filter Exported pre)) g).
Proof.
  intros Hfs Hpre Hex Hu. unfold generateIsSet. rewrite Hfs.
  destruct (length (pre ++ f :: post) =? 0)%nat eqn:E.
  { apply Nat.eqb_eq in E. rewrite length_app in E. simpl in E. lia. }
  unfold andThen, emit at 1.
  rewrite isSetFields_app by done. simpl. rewrite Hex. simpl.
  rewrite Hu. unfold fail. simpl.
  rewrite Fprint_Fprint, orTail_returnOperand.
  unfold flattenName. by rewrite ?StrFacts.app_assoc.
Qed.

(** [generateIsSet] stops at the first exported field whose underlying
    type is neither a slice, a map nor a struct: the error names the
    dynamic type and the flattened key of that field, and the buffer keeps
    what had been written, the header and the disjuncts of the exported
    fields before it, with no closing brace. *)
Theorem generateIsSet_unsupported (structTyp : structType) (key : string)
    (g : CodeGenerator) (pre : list structField) (f : structField)
    (post : list structField) (t : string) :
  fields structTyp = (pre ++ f :: post)%list →
  Forall supported (List.filter Exported pre) →
  Exported f = true →
  Underlying (Typ f) = Other t →
  generateIsSet structTyp key g =
    (Some ("unhandled type " +:+ t +:+ " for IsSet() for '"
             +:+ flattenName key f +:+ "'"),
     Fprint (isSetHeader (name structTyp)
               +:+ returnOperand (List.filter Exported pre)) g).
Proof. apply generateIsSet_stops. Qed.

(** ** [generateReset]: when it succeeds, and how it fails *)

Lemma resetFields_app (key : string) (done_ rest : list structField)
    (g : CodeGenerator) :
  Forall supported (List.filter Exported done_) →
  resetFields key (done_ ++ rest) g =
    resetFields key rest (Fprint (resetBody g done_) g).
Proof.
  revert g. induction done_ as [|f fs IH]; intros g; simpl.
  - intros _. by rewrite Fprint_empty.
  - destruct (Exported f) eqn:Hex; simpl; intros Hall.
    + inversion Hall as [|? ? Hs Hrest]; subst.
      unfold andThen.
      destruct (resetField key f g) as [[e|] g1] eqn:Hf.
      * unfold resetField, supported in *.
        destruct (Underlying (Typ f)) as [el|el| |t]; try done.
        unfold andThen, emit, skip in Hf. by destruct (customStruct g el).
      * apply resetField_ok in Hf as ->.
        rewrite IH by done. by rewrite Fprint_Fprint, resetBody_Fprint.
    + rewrite IH by done. by rewrite StrFacts.app_nil_l.
Qed.

Lemma generateReset_error_iff (structTyp : structType) (key : string)
    (g : CodeGenerator) :
  (generateReset structTyp key g).1 = None ↔
  Forall supported (List.filter Exported (fields structTyp)).
Proof.
  unfold generateReset, andThen, emit at 1.
  generalize (Fprint (resetHeader (name structTyp)) g) as g0.
  generalize (dotted key) as k. intros k.
  induction (fields structTyp) as [|f rest IH]; intros g0; simpl.
  - split; [constructor|done].
  - destruct (Exported f) eqn:Hex; simpl; [|apply IH].
    unfold andThen at 1.
    destruct (resetField k f g0) as [[e|] g1] eqn:Hf; simpl.
    + split; [done|]. inversion 1 as [|? ? Hs _]; subst.
      unfold resetField, supported in *.
      destruct (Underlying (Typ f)) as [el|el| |t]; try done.
      unfold andThen, emit, skip in Hf. by destruct (customStruct g0 el).
    + rewrite IH. split; [|by inversion 1].
      intros Hrest. constructor; [|done].
      unfold resetField, supported in *.
      by destruct (Underlying (Typ f)).
Qed.

Lemma resetFields_unexported (key : string) (fs : list structField)
    (g : CodeGenerator) :
  List.filter Exported fs = [] → resetFields key fs g = (None, g).
Proof.
  induction fs as [|f rest IH]; [done|]. simpl.
  destruct (Exported f); [done|]. exact IH.
Qed.

(** [generateReset] returns no error exactly when every exported field has
    a slice, a map or a struct as its underlying type; for a type without
    exported fields, a type without any field included, it returns no
    error and emits a Reset method with an empty body. *)
Theorem generateReset_succeeds_iff (structTyp : structType) (key : string)
    (g : CodeGenerator) :
  ((generateReset structTyp key g).1 = None ↔
   Forall supported (List.filter Exported (fields structTyp)))
  ∧ (List.filter Exported (fields structTyp) = [] →
     generateReset structTyp key g =
       (None, Fprint (nl +:+ "func (val *" +:+ name structTyp
                         +:+ ") Reset() {" +:+ nl +:+ "}" +:+ nl) g)).
Proof.
  split; [apply generateReset_error_iff|].
  intros Hnone. unfold generateReset, andThen, emit.
  rewrite resetFields_unexported by done.
  rewrite Fprint_Fprint. unfold resetHeader, resetEnd.
  by rewrite ?StrFacts.app_assoc.
Qed.

(** [generateReset] stops at the first exported field whose underlying
    type is neither a slice, a map nor a struct: the error names the
    dynamic type and the flattened key of that field, and the buffer keeps
    the header and the statements of the fields before it, with no closing
    brace. *)
Theorem generateReset_unsupported (structTyp : structType) (key : string)
    (g : CodeGenerator) (pre : list structField) (f : structField)
    (post : list structField) (t : string) :
  fields structTyp = (pre ++ f :: post)%list →
  Forall supported (List.filter Exported pre) →
  Exported f = true →
  Underlying (Typ f) = Other t →
  generateReset structTyp key g =
    (Some ("unhandled type " +:+ t +:+ " for Reset() for '"
             +:+ flattenName key f +:+ "'"),
     Fprint (resetHeader (name structTyp) +:+ resetBody g pre) g).
Proof.
  intros Hfs Hpre Hex Hu. unfold generateReset. rewrite Hfs.
  rewrite (andThen_continues _ _ g (Fprint (resetHeader (name structTyp)) g))
    by reflexivity.
  unfold andThen at 1.
  rewrite resetFields_app by done. simpl. rewrite Hex. simpl.
  unfold andThen, resetField. rewrite Hu. unfold fail.
  rewrite Fprint_Fprint, resetBody_Fprint.
  unfold flattenName. by rewrite ?StrFacts.app_assoc.
Qed.

(** ** [generateValidation]: choice of the rule, skipped fields, rule errors *)

Section ValidationMore.

(** A field whose type name is one of the nullable types gets its rule
    from the name alone: the underlying type is not looked at, the struct
    types of the package are not consulted and [custom] is false; so two
    fields with the same nullable type name get the same rule under any
    two generators. *)
Theorem selectValidation_nullable (g g' : CodeGenerator) (f f' : structField) :
  isNullable (TypeString (Typ f)) = true →
  TypeString (Typ f') = TypeString (Typ f) →
  selectValidation g' f' = selectValidation g f
  ∧ ∃ rule, selectValidation g f = inl (rule, false).
Proof.
  unfold isNullable, selectValidation. intros Hn ->.
  destruct (String.eqb (TypeString (Typ f)) nullableTypeString);
    [split; [done|by eexists]|].
  destruct (String.eqb (TypeString (Typ f)) nullableTypeInt);
    [split; [done|by eexists]|].
  destruct (String.eqb (TypeString (Typ f)) nullableTypeFloat64);
    [split; [done|by eexists]|].
  destruct (String.eqb (TypeString (Typ f)) nullableTypeInterface);
    [split; [done|by eexists]|].
  done.
Qed.

(** A nullable float64 field is validated by the rule of nullable int. *)
Theorem selectValidation_float64 (g : CodeGenerator) (f : structField) :
  TypeString (Typ f) = nullableTypeFloat64 →
  nullableTypeFloat64 ≠ nullableTypeString →
  selectValidation g f = inl (generateNullableIntValidation, false).
Proof.
  intros Hf Hne. unfold selectValidation. rewrite Hf.
  destruct (String.eqb_spec nullableTypeFloat64 nullableTypeString); [done|].
  destruct (String.eqb nullableTypeFloat64 nullableTypeInt); [done|].
  by rewrite String.eqb_refl.
Qed.

(** The validation loop does with a list of fields what it does with the
    fields of it that are exported or named [_]: the other fields, whatever
    their types, add no text and cause no error. *)
Theorem validateFields_considered (key : string) (all fs : list structField)
    (g : CodeGenerator) :
  validateFields key all fs g
  = validateFields key all (List.filter consideredb fs) g.
Proof.
  revert g. induction fs as [|f rest IH]; intros g; simpl; [done|].
  unfold consideredb at 1.
  destruct (Exported f) eqn:Hex; simpl.
  - rewrite Hex. simpl. unfold andThen.
    destruct (validateField key all f g) as [[e|] g1]; [done|]. apply IH.
  - destruct (String.eqb (Name f) anonymousField) eqn:Hn; simpl; [|apply IH].
    rewrite Hex, Hn. simpl. unfold andThen.
    destruct (validateField key all f g) as [[e|] g1]; [done|]. apply IH.
Qed.

(** When the rule selected for a field returns an error, and the fields
    before it were validated without one, [generateValidation] returns
    that error wrapped with the flattened key of the field. *)
Theorem generateValidation_rule_error (g : CodeGenerator) (n key : string)
    (pre : list structField) (f : structField) (post : list structField)
    (rule : validationGenerator) (custom : bool) (out : string) (e : error) :
  let structTyp := {| name := n; fields := pre ++ f :: post |} in
  (validateFields key (fields structTyp) pre g).1 = None →
  considered f →
  selectValidation g f = inl (rule, custom) →
  rule (fields structTyp) f custom = (out, Some e) →
  (generateValidation structTyp key g).1
  = Some (flattenName key f +:+ ": " +:+ e).
Proof.
  intros structTyp Hpre Hcons Hsel Hrule.
  assert ((validateFields key (fields structTyp) (fields structTyp) g).1
          = Some (flattenName key f +:+ ": " +:+ e)) as Hloop.
  { subst structTyp. cbn [fields] in *.
    rewrite validateFields_app. unfold andThen at 1.
    destruct (validateFields key (pre ++ f :: post) pre g)
      as [e0 g1] eqn:Hrun; simpl in Hpre; subst e0.
    assert (selectValidation g1 f = inl (rule, custom)) as Hsel1.
    { destruct (validateFields_runsAs key (pre ++ f :: post) pre) as [w Hw].
      rewrite Hw in Hrun. injection Hrun as _ <-. exact Hsel. }
    simpl. rewrite considered_not_skipped by done.
    unfold andThen, validateField. rewrite Hsel1, Hrule. reflexivity. }
  unfold generateValidation.
  rewrite (andThen_continues _ _ g (Fprint (validateHeader n) g))
    by reflexivity.
  destruct (negb (isRoot g structTyp)).
  - rewrite (andThen_continues _ _ _
               (Fprint shortCircuit (Fprint (validateHeader n) g)))
      by reflexivity.
    apply andThen_fails.
    by rewrite !validateFields_error_Fprint.
  - rewrite (andThen_continues _ _ _ (Fprint (validateHeader n) g))
      by reflexivity.
    apply andThen_fails.
    by rewrite !validateFields_error_Fprint.
Qed.

End ValidationMore.

(** ** [generate]: what a call leaves behind *)

Section GenerateMore.

Lemma generateLog_records_type (fuel : nat) (st : structType) (key : string)
    (g : CodeGenerator) (r : option error) (g' : CodeGenerator)
    (l : list string) :
  generateLog fuel st key g = Some (r, g', l) →
  name st ∉ processedTypes g →
  ∃ l', l = name st :: l'.
Proof.
  destruct fuel as [|fuel]; [done|]. simpl. intros Hrun Hnew.
  rewrite decide_False in Hrun by done.
  destruct ((generateIsSet st key >> generateReset st key >>
             generateValidation st key) (markProcessed (name st) g))
    as [[e|] g1].
  - injection Hrun as _ _ <-. by eexists.
  - destruct (generateFieldsLog _ _ _ _) as [[[r2 g2] l2]|]; [|done].
    injection Hrun as _ _ <-. by eexists.
Qed.

Lemma generate_processed_after (fuel : nat) (st : structType) (key : string)
    (g : CodeGenerator) (r : option error) (g' : CodeGenerator) :
  generate fuel st key g = Some (r, g') → name st ∈ processedTypes g'.
Proof.
  rewrite <- generateLog_forget.
  destruct (generateLog fuel st key g) as [[[r1 g1] l]|] eqn:Hrun; [|done].
  intros [= <- <-].
  pose proof (generateLog_grows _ _ _ _ _ _ _ Hrun) as (_ & _ & Hp & _).
  destruct (decide (name st ∈ processedTypes g)) as [Hin|Hnew].
  - rewrite Hp. set_solver.
  - destruct (generateLog_records_type _ _ _ _ _ _ _ Hrun Hnew) as [l' ->].
    rewrite Hp. set_solver.
Qed.

(** A call of [generate] only appends to the buffer and only adds to the
    processed set; it leaves the parsed package and the roots as they
    were. *)
Theorem generate_append_only (fuel : nat) (st : structType) (key : string)
    (g : CodeGenerator) (r : option error) (g' : CodeGenerator) :
  generate fuel st key g = Some (r, g') →
  (∃ out, buf g' = buf g +:+ out)
  ∧ processedTypes g ⊆ processedTypes g'
  ∧ parsed g' = parsed g
  ∧ rootObjs g' = rootObjs g.
Proof.
  intros Hrun. destruct (generate_grows _ _ _ _ _ _ Hrun)
    as (l & _ & _ & Hp & Hq & Hr & Hb).
  repeat split; try done. rewrite Hp. set_solver.
Qed.

(** Whatever a call of [generate] returns, an error included, the type is
    marked as processed afterwards: a later call for the same type on that
    generator, under any key, returns no error and changes nothing. *)
Theorem generate_again_is_silent (fuel : nat) (st : structType)
    (key : string) (g : CodeGenerator) (r : option error)
    (g' : CodeGenerator) :
  generate fuel st key g = Some (r, g') →
  name st ∈ processedTypes g'
  ∧ ∀ fuel' key', generate (S fuel') st key' g' = Some (None, g').
Proof.
  intros Hrun. pose proof (generate_processed_after _ _ _ _ _ _ Hrun) as Hin.
  split; [done|]. intros fuel' key'. simpl. by rewrite decide_True.
Qed.

Lemma generateRoots_processed (fuel : nat) (roots : list structType)
    (g g' : CodeGenerator) :
  generateRoots (generate fuel) roots g = Some (None, g') →
  ∀ rt, rt ∈ roots → name rt ∈ processedTypes g'.
Proof.
  revert g. induction roots as [|r0 rest IH]; intros g Hrun rt Hin.
  - by apply elem_of_nil in Hin.
  - simpl in Hrun.
    destruct (generate fuel r0 EmptyString g) as [[[e|] g1]|] eqn:Hc;
      try done.
    apply elem_of_cons in Hin as [->|Hin]; [|by eapply IH].
    pose proof (generate_processed_after _ _ _ _ _ _ Hc) as Hin.
    destruct (generateRoots_grows _ _ _ _ _ Hrun) as (l & _ & _ & Hp & _).
    rewrite Hp. set_solver.
Qed.

Lemma generateRoots_all_processed (fuel : nat) (roots : list structType)
    (g : CodeGenerator) :
  (∀ rt, rt ∈ roots → name rt ∈ processedTypes g) →
  generateRoots (generate (S fuel)) roots g = Some (None, g).
Proof.
  induction roots as [|r0 rest IH]; intros Hall; [done|].
  cbn [generateRoots].
  assert (generate (S fuel) r0 EmptyString g = Some (None, g)) as ->.
  { simpl. rewrite decide_True; [done|]. apply Hall. by left. }
  apply IH. intros rt Hin. apply Hall. by right.
Qed.

(** [Generate] is written for a fresh generator: called again on the
    generator a successful run has left, it finds every root processed and
    appends a second header and nothing else: the buffer it returns is the
    first output followed by that header. *)
Theorem Generate_second_run (fuel : nat) (order : list string)
    (g : CodeGenerator) (out : string) (g' : CodeGenerator)
    (fuel' : nat) (order' : list string) :
  GenerateWith fuel order g = Some (out, None, g') →
  GenerateWith (S fuel') order' g'
  = Some (out +:+ fileHeader (pkgName (parsed g))
              +:+ patternVars (sortKeys order') +:+ varEnd,
          None, writeHeader order' g').
Proof.
  unfold GenerateWith at 1.
  destruct (generateRoots (generate fuel) (rootObjs g) (writeHeader order g))
    as [[[e|] g1]|] eqn:Hrun; try done.
  intros [= <- <-].
  pose proof (generateRoots_processed _ _ _ _ Hrun) as Hall.
  destruct (generateRoots_grows _ _ _ _ _ Hrun) as (l & _ & _ & _ & Hq & Hr & _).
  pose proof (writeHeader_grows order g) as (_ & _ & _ & Hq0 & Hr0 & _).
  unfold GenerateWith.
  rewrite generateRoots_all_processed.
  - rewrite writeHeader_eq. simpl. rewrite Hq, Hq0.
    by rewrite ?StrFacts.app_assoc.
  - intros rt Hin. rewrite writeHeader_eq. simpl. apply Hall.
    rewrite Hr, Hr0 in Hin. exact Hin.
Qed.

End GenerateMore.

(** ** [generate]: the three methods of a type, in order *)

Lemma andThen_None (m k : method) (g g' : CodeGenerator) :
  (m >> k) g = (None, g') → ∃ g1, m g = (None, g1) ∧ k g1 = (None, g').
Proof.
  unfold andThen. destruct (m g) as [[e|] g1]; [done|]. intros Hk. by exists g1.
Qed.

Lemma generateIsSet_text (structTyp : structType) (key : string)
    (g g' : CodeGenerator) :
  generateIsSet structTyp key g = (None, g') →
  g' = Fprint (isSetHeader (name structTyp)
                 +:+ returnOperand (List.filter Exported (fields structTyp))
                 +:+ isSetEnd) g.
Proof.
  unfold generateIsSet.
  destruct (length (fields structTyp) =? 0)%nat; [discriminate|].
  intros (g1 & [= <-] & (g2 & Hloop & [= <-])%andThen_None)%andThen_None.
  apply isSetFields_ok in Hloop as [-> _].
  rewrite !Fprint_Fprint, orTail_returnOperand.
  by rewrite ?StrFacts.app_assoc.
Qed.

Lemma resetBody_parsed (g1 g2 : CodeGenerator) (fs : list structField) :
  parsed g1 = parsed g2 → resetBody g1 fs = resetBody g2 fs.
Proof.
  intros Hp. induction fs as [|f rest IH]; [done|]. simpl. rewrite IH.
  unfold resetStmt, isKnown, customStruct. by rewrite Hp.
Qed.

Section GenerateOrder.

Lemma generateValidation_text (structTyp : structType) (key : string)
    (g g' : CodeGenerator) :
  generateValidation structTyp key g = (None, g') →
  ∃ rules,
    g' = Fprint (validateHeader (name structTyp)
                   +:+ (if isRoot g structTyp then EmptyString else shortCircuit)
                   +:+ rules +:+ validateEnd) g.
Proof.
  unfold generateValidation.
  intros (g1 & [= <-] & (g2 & Hsc & (g3 & Hloop & [= <-])%andThen_None)
            %andThen_None)%andThen_None.
  destruct (validateFields_runsAs key (fields structTyp) (fields structTyp))
    as [w Hw].
  destruct (runsAs_writes _ _ Hw g2) as [rules Hrules].
  rewrite Hloop in Hrules. simpl in Hrules. subst g3. exists rules.
  destruct (isRoot g structTyp); simpl in Hsc; injection Hsc as <-.
  - rewrite !Fprint_Fprint. by rewrite ?StrFacts.app_assoc.
  - rewrite !Fprint_Fprint. by rewrite ?StrFacts.app_assoc.
Qed.

End GenerateOrder.

Section GenerateBodies.

Lemma generateFields_grows (fuel : nat) (key : string) (fs : list structField)
    (g : CodeGenerator) (r : option error) (g' : CodeGenerator) :
  generateFields (generate fuel) key fs g = Some (r, g') → ∃ l, grows g g' l.
Proof.
  rewrite <- (generateFieldsLog_forget (generateLog fuel) (generate fuel)
                (generateLog_forget fuel)).
  destruct (generateFieldsLog _ key fs g) as [[[r1 g1] l]|] eqn:Hrun; [|done].
  intros [= <- <-]. exists l.
  eapply generateFieldsLog_grows; [|exact Hrun].
  intros st k g0 r0 g0' l0. apply generateLog_grows.
Qed.

(** A call of [generate] for a type not yet processed, when it returns no
    error, has appended to the buffer the [IsSet] method of the type, then
    its [Reset] method, then its [validate] method, each complete, and
    after them whatever the calls for the types of its fields wrote. *)
Theorem generate_methods_in_order (fuel : nat) (st : structType)
    (key : string) (g g' : CodeGenerator) :
  name st ∉ processedTypes g →
  generate (S fuel) st key g = Some (None, g') →
  ∃ rules rest,
    buf g' = buf g
      +:+ (isSetHeader (name st)
             +:+ returnOperand (List.filter Exported (fields st)) +:+ isSetEnd)
      +:+ (resetHeader (name st) +:+ resetBody g (fields st) +:+ resetEnd)
      +:+ (validateHeader (name st)
             +:+ (if isRoot g st then EmptyString else shortCircuit)
             +:+ rules +:+ validateEnd)
      +:+ rest.
Proof.
  intros Hnew Hrun. simpl in Hrun. rewrite decide_False in Hrun by done.
  destruct ((generateIsSet st key >> generateReset st key >>
             generateValidation st key) (markProcessed (name st) g))
    as [[e|] g1] eqn:Hsyn; [done|].
  apply andThen_None in Hsyn as (ga & Ha & Hsyn).
  apply andThen_None in Hsyn as (gb & Hb & Hc).
  apply generateIsSet_text in Ha. apply generateReset_ok in Hb.
  apply generateValidation_text in Hc as [rules Hc].
  apply generateFields_grows in Hrun as (l & _ & _ & _ & _ & _ & rest & Hbuf).
  exists rules, rest. rewrite Hbuf, Hc, Hb, Ha. simpl.
  rewrite (resetBody_parsed _ g) by reflexivity.
  by rewrite ?StrFacts.app_assoc.
Qed.

End GenerateBodies.

(** ** The traversal reaches every referenced type, and nothing else *)

Lemma refers_childType (p : Parsed) (a b : structType) (f : structField) :
  f ∈ fields a →
  structTypes p !! TypeString (childType f) = Some b →
  refers p a b.
Proof.
  intros Hf Hb. exists f. split; [done|]. unfold childType in Hb.
  by destruct (Underlying (Typ f)).
Qed.

Lemma refers_field (p : Parsed) (a b : structType) :
  refers p a b →
  ∃ f, f ∈ fields a ∧ structTypes p !! TypeString (childType f) = Some b.
Proof.
  intros (f & Hf & Hb). exists f. split; [done|]. unfold childType.
  by destruct (Underlying (Typ f)).
Qed.

Section Traversal.

Lemma generateFieldsLog_reach (fuel : nat) (p : Parsed) (st : structType) :
  (∀ child key g r g' l,
     parsed g = p → generateLog fuel child key g = Some (r, g', l) →
     ∀ n, n ∈ l → ∃ t, rtc (refers p) child t ∧ name t = n) →
  ∀ key fs g r g' l,
    (∀ f, f ∈ fs → f ∈ fields st) → parsed g = p →
    generateFieldsLog (generateLog fuel) key fs g = Some (r, g', l) →
    ∀ n, n ∈ l → ∃ t, rtc (refers p) st t ∧ name t = n.
Proof.
  intros Hrec key fs. induction fs as [|f rest IH]; intros g r g' l Hsub Hp;
    simpl.
  - intros [= <- <- <-] n Hin. by apply elem_of_nil in Hin.
  - assert (∀ f0, f0 ∈ rest → f0 ∈ fields st) as Hsub'
      by (intros f0 Hf0; apply Hsub; by right).
    destruct (customStruct g (childType f)) as [child|] eqn:Hchild;
      [|by apply IH].
    assert (refers p st child) as Href.
    { apply (refers_childType p st child f); [apply Hsub; by left|].
      unfold customStruct in Hchild. by rewrite Hp in Hchild. }
    destruct (generateLog fuel child (key +:+ jsonName f) g)
      as [[[[e|] g1] l1]|] eqn:Hc; [| |done].
    + intros [= <- <- <-] n Hin.
      destruct (Hrec _ _ _ _ _ _ Hp Hc n Hin) as (t & Ht & Hn).
      exists t. split; [by eapply rtc_l|done].
    + destruct (generateFieldsLog _ key rest g1) as [[[r2 g2] l2]|] eqn:Hr;
        [|done].
      intros [= <- <- <-] n [Hin|Hin]%elem_of_app.
      * destruct (Hrec _ _ _ _ _ _ Hp Hc n Hin) as (t & Ht & Hn).
        exists t. split; [by eapply rtc_l|done].
      * apply generateLog_grows in Hc as (_ & _ & _ & Hp1 & _).
        eapply (IH g1); [done|congruence|exact Hr|done].
Qed.

Lemma generateLog_reach (fuel : nat) (st : structType) (key : string)
    (g : CodeGenerator) (r : option error) (g' : CodeGenerator)
    (l : list string) :
  generateLog fuel st key g = Some (r, g', l) →
  ∀ n, n ∈ l → ∃ t, rtc (refers (parsed g)) st t ∧ name t = n.
Proof.
  revert st key g r g' l. induction fuel as [|fuel IH];
    intros st key g r g' l; simpl; [done|].
  destruct (decide (name st ∈ processedTypes g)) as [Hold|Hnew].
  { intros [= <- <- <-] n Hin. by apply elem_of_nil in Hin. }
  destruct (writes_synthesis st key (markProcessed (name st) g)) as [out Hout].
  destruct ((generateIsSet st key >> generateReset st key >>
             generateValidation st key) (markProcessed (name st) g))
    as [[e|] g1]; simpl in Hout; subst g1.
  - intros [= <- <- <-] n ->%list_elem_of_singleton. by exists st.
  - destruct (generateFieldsLog _ _ _ _) as [[[r2 g2] l2]|] eqn:Hfs; [|done].
    intros [= <- <- <-] n [->|Hin]%elem_of_cons; [by exists st|].
    eapply (generateFieldsLog_reach fuel (parsed g) st); [|done| |exact Hfs|done].
    + intros child k g0 r0 g0' l0 Hp0 Hc0 n0 Hin0.
      rewrite <- Hp0. by eapply IH.
    + reflexivity.
Qed.

(** [Generate] processes nothing but what the roots lead to: a name that
    is in the processed set after a run and was not before is the name of
    a type that a root reaches through the fields, slice elements and map
    elements of struct types. *)
Theorem Generate_processes_only_reachable (fuel : nat) (order : list string)
    (g : CodeGenerator) (out : string) (err : option error)
    (g' : CodeGenerator) (n : string) :
  GenerateWith fuel order g = Some (out, err, g') →
  n ∈ processedTypes g' →
  n ∈ processedTypes g
  ∨ ∃ rt t, rt ∈ rootObjs g ∧ rtc (refers (parsed g)) rt t ∧ name t = n.
Proof.
  rewrite GenerateWith_forget. unfold GenerateLog.
  destruct (generateRootsLog _ _ _) as [[[r g1] l]|] eqn:Hrun; [|done].
  intros [= _ _ <-] Hin.
  pose proof (generateRootsLog_grows _ _ _ _ _ _ Hrun) as (_ & _ & Hp & _).
  rewrite Hp in Hin. apply elem_of_union in Hin as [Hin|Hin];
    [|left; by rewrite writeHeader_eq in Hin].
  right. apply elem_of_list_to_set in Hin.
  assert (parsed (writeHeader order g) = parsed g) as Hq
    by (by rewrite writeHeader_eq).
  revert Hrun Hin Hq. generalize (writeHeader order g) as g0.
  generalize (rootObjs g) as roots. clear Hp.
  intros roots. revert r g1 l.
  induction roots as [|r0 rest IH]; intros r g1 l g0; simpl.
  - intros [= <- <- <-] Hin. by apply elem_of_nil in Hin.
  - destruct (generateLog fuel r0 EmptyString g0) as [[[[e|] g2] l2]|] eqn:Hc;
      [| |done].
    + intros [= <- <- <-] Hin Hq.
      destruct (generateLog_reach _ _ _ _ _ _ _ Hc n Hin) as (t & Ht & Hn).
      exists r0, t. rewrite Hq in Ht. split; [by left|done].
    + destruct (generateRootsLog _ rest g2) as [[[r3 g3] l3]|] eqn:Hr; [|done].
      intros [= <- <- <-] [Hin|Hin]%elem_of_app Hq.
      * destruct (generateLog_reach _ _ _ _ _ _ _ Hc n Hin) as (t & Ht & Hn).
        exists r0, t. rewrite Hq in Ht. split; [by left|done].
      * apply generateLog_grows in Hc as (_ & _ & _ & Hp2 & _).
        destruct (IH _ _ _ _ Hr Hin) as (rt & t & Hrt & Ht & Hn);
          [congruence|].
        exists rt, t. split; [by right|done].
Qed.

End Traversal.

Section Completeness.

Lemma closedExcept_mark (S : gset string) (g : CodeGenerator) (n out : string) :
  closedExcept S g →
  closedExcept (S ∪ {[n]}) (Fprint out (markProcessed n g)).
Proof.
  intros Hcl t c Hd Hin Hout Href. simpl in *.
  apply elem_of_union_r. apply (Hcl t c); [done| |set_solver|done].
  set_solver.
Qed.

Lemma generateFields_closes (fuel : nat) (S : gset string) (p : Parsed) :
  (∀ st key g g',
     parsed g = p → declared p st → closedExcept S g →
     generate fuel st key g = Some (None, g') → closedExcept S g') →
  ∀ key fs g g',
    parsed g = p → closedExcept S g →
    generateFields (generate fuel) key fs g = Some (None, g') →
    closedExcept S g'
    ∧ ∀ f c, f ∈ fs → structTypes p !! TypeString (childType f) = Some c →
             name c ∈ processedTypes g'.
Proof.
  intros Hrec key fs. induction fs as [|f rest IH]; intros g g' Hp Hcl; simpl.
  - intros [= <-]. split; [done|]. intros f c Hin. by apply elem_of_nil in Hin.
  - unfold customStruct. rewrite Hp.
    destruct (structTypes p !! TypeString (childType f)) as [child|] eqn:Hchild.
    + destruct (generate fuel child (key +:+ jsonName f) g)
        as [[[e|] g1]|] eqn:Hc; try done.
      intros Hrest.
      destruct (generate_grows _ _ _ _ _ _ Hc) as (l1 & _ & _ & _ & Hp1 & _).
      pose proof (generate_processed_after _ _ _ _ _ _ Hc) as Hin1.
      destruct (generateFields_grows _ _ _ _ _ _ Hrest)
        as (l2 & _ & _ & Hp2 & _).
      destruct (IH g1 g') as [Hcl' Hkids]; [congruence| |done|].
      { eapply Hrec; [exact Hp| |exact Hcl|exact Hc]. by exists (TypeString (childType f)). }
      split; [done|]. intros f0 c [->|Hin]%elem_of_cons Hc0; [|by eapply Hkids].
      rewrite Hchild in Hc0. injection Hc0 as <-. rewrite Hp2. set_solver.
    + intros Hrest. destruct (IH g g' Hp Hcl Hrest) as [Hcl' Hkids].
      split; [done|]. intros f0 c [->|Hin]%elem_of_cons Hc0; [|by eapply Hkids].
      by rewrite Hchild in Hc0.
Qed.

Lemma generate_closes (fuel : nat) (S : gset string) (st : structType)
    (key : string) (g g' : CodeGenerator) :
  wellNamed (parsed g) → declared (parsed g) st → closedExcept S g →
  generate fuel st key g = Some (None, g') → closedExcept S g'.
Proof.
  revert S st key g g'. induction fuel as [|fuel IH];
    intros S st key g g' Hwn Hd Hcl; simpl; [done|].
  destruct (decide (name st ∈ processedTypes g)) as [Hold|Hnew].
  { by intros [= <-]. }
  destruct (writes_synthesis st key (markProcessed (name st) g)) as [out Hout].
  destruct ((generateIsSet st key >> generateReset st key >>
             generateValidation st key) (markProcessed (name st) g))
    as [[e|] g1]; simpl in Hout; subst g1; [done|].
  intros Hloop.
  destruct (generateFields_closes fuel (S ∪ {[name st]}) (parsed g)) with
    (key := dotted key) (fs := fields st)
    (g := Fprint out (markProcessed (name st) g)) (g' := g')
    as [Hcl' Hkids]; [|reflexivity|by apply closedExcept_mark|exact Hloop|].
  { intros st0 k0 g0 g0' Hp0 Hd0 Hcl0 Hrun0.
    eapply IH; [by rewrite Hp0|by rewrite Hp0|exact Hcl0|exact Hrun0]. }
  destruct (generateFields_grows _ _ _ _ _ _ Hloop) as (l & _ & _ & _ & Hp & _).
  simpl in Hp.
  intros t c Ht Hin Hout Href. rewrite Hp in Ht, Href.
  destruct (decide (name t = name st)) as [Heq|Hne].
  - assert (t = st) as -> by (by apply Hwn).
    apply refers_field in Href as (f & Hf & Hc). by eapply Hkids.
  - apply (Hcl' t c); [by rewrite Hp|done|set_solver|by rewrite Hp].
Qed.

Lemma generateRoots_closes (fuel : nat) (roots : list structType)
    (g g' : CodeGenerator) :
  wellNamed (parsed g) →
  (∀ rt, rt ∈ roots → declared (parsed g) rt) →
  closedExcept ∅ g →
  generateRoots (generate fuel) roots g = Some (None, g') →
  closedExcept ∅ g'.
Proof.
  revert g. induction roots as [|r0 rest IH]; intros g Hwn Hd Hcl; simpl.
  - by intros [= <-].
  - destruct (generate fuel r0 EmptyString g) as [[[e|] g1]|] eqn:Hc; try done.
    destruct (generate_grows _ _ _ _ _ _ Hc) as (l1 & _ & _ & _ & Hp1 & _).
    apply IH.
    + by rewrite Hp1.
    + intros rt Hin. rewrite Hp1. apply Hd. by right.
    + eapply generate_closes; [done| |done|exact Hc]. apply Hd. by left.
Qed.

(** When no two declared struct types share a name and the roots are
    declared types, a run of [Generate] on a generator that has processed
    nothing, if it returns no error, has processed every type that a root
    reaches through the fields, slice elements and map elements of struct
    types. *)
Theorem Generate_processes_all_reachable (fuel : nat) (order : list string)
    (g : CodeGenerator) (out : string) (g' : CodeGenerator)
    (rt t : structType) :
  wellNamed (parsed g) →
  (∀ r, r ∈ rootObjs g → declared (parsed g) r) →
  processedTypes g = ∅ →
  GenerateWith fuel order g = Some (out, None, g') →
  rt ∈ rootObjs g →
  rtc (refers (parsed g)) rt t →
  name t ∈ processedTypes g'.
Proof.
  intros Hwn Hd He. unfold GenerateWith.
  destruct (generateRoots (generate fuel) (rootObjs g) (writeHeader order g))
    as [[[e|] g1]|] eqn:Hrun; try done.
  intros [= _ <-] Hrt Hreach.
  pose proof (generateRoots_processed _ _ _ _ Hrun rt Hrt) as Hin.
  destruct (generateRoots_grows _ _ _ _ _ Hrun) as (l & _ & _ & _ & Hp & _).
  assert (parsed (writeHeader order g) = parsed g) as Hq
    by (by rewrite writeHeader_eq).
  assert (closedExcept ∅ g1) as Hcl.
  { eapply generateRoots_closes; [| | |exact Hrun].
    - by rewrite Hq.
    - intros r Hr. rewrite Hq. by apply Hd.
    - intros t0 c _ Hin0. rewrite writeHeader_eq in Hin0. simpl in Hin0.
      rewrite He in Hin0. by apply not_elem_of_empty in Hin0. }
  rewrite Hq in Hp. specialize (Hd rt Hrt). clear Hrt Hrun.
  revert Hin Hd.
  induction Hreach as [a|a b c Hab Hbc IH]; intros Hin Hd; [done|].
  assert (declared (parsed g) b) as Hdb.
  { apply refers_field in Hab as (f & _ & Hb). by eexists. }
  apply IH; [|done].
  apply (Hcl a b); [by rewrite Hp|done|set_solver|by rewrite Hp].
Qed.

End Completeness.

(** ** [sortKeys]: one entry for each key *)

(** Given the keys of a map in the order of any enumeration, [sortKeys]
    returns every key of the map once and nothing else: its result has no
    duplicates, holds exactly the keys that the map has, and is as long as
    the map is large. *)
Theorem sortKeys_keys (input : gmap string string) (order : list string) :
  rangeOf input order →
  NoDup (sortKeys order)
  ∧ (∀ k, k ∈ sortKeys order ↔ is_Some (input !! k))
  ∧ length (sortKeys order) = size input.
Proof.
  unfold rangeOf. intros Hr.
  assert (sortKeys order ≡ₚ (map_to_list input).*1) as Hp
    by (by rewrite sortKeys_Permutation).
  split; [|split].
  - rewrite Hp. apply NoDup_fst_map_to_list.
  - intros k. rewrite Hp, list_elem_of_fmap. split.
    + intros ([k' v] & -> & Hin). apply elem_of_map_to_list in Hin. by eexists.
    + intros [v Hv]. exists (k, v). split; [done|].
      by apply elem_of_map_to_list.
  - by rewrite Hp, length_fmap, length_map_to_list.
Qed.

(** ** Key paths through nested types *)

Section NestedKey.


End NestedKey.

End Theory.

(** * Examples

    The properties at the sample inputs, with [strings.ToLower] taken on
    ASCII identifiers and with rules that write one line per field. *)

Section Examples.

#[local] Existing Instance Sample.asciiStrings.
#[local] Existing Instance Sample.rules.

(** ** The claims *)

Lemma generate_processes_once_witness :
  generate 1 Sample.node EmptyString
    (markProcessed "node" (Sample.generator [Sample.node]))
  = Some (None, markProcessed "node" (Sample.generator [Sample.node])).
Proof.
  apply (proj1 (generate_processes_once Sample.node EmptyString
                  (markProcessed "node" (Sample.generator [Sample.node])))).
  simpl. apply elem_of_union_l, elem_of_singleton. reflexivity.
Defined.

(** A cycle and a shared reference: [node] refers to itself and to [root],
    [root] refers to [tag] twice; with [node] and [root] as roots each of
    the three types is processed once. *)
Example generate_cycle :
  ∃ g', GenerateLog 3 ["patternA"; "patternB"]
          (Sample.generator [Sample.node; Sample.root])
        = Some (None, g', ["node"; "root"; "tag"]).
Proof. eexists. vm_compute. reflexivity. Qed.

Lemma Sample_rangeOf (o : list string) :
  o ≡ₚ ["patternA"; "patternB"] →
  rangeOf (patternVariables Sample.package) o.
Proof. intros Ho. unfold rangeOf. rewrite Ho. vm_compute. reflexivity. Qed.

Lemma Generate_deterministic_witness :
  Generate ["patternB"; "patternA"] (Sample.generator [])
  = Generate ["patternA"; "patternB"] (Sample.generator [])
  ∧ ∃ g',
      Generate ["patternB"; "patternA"] (Sample.generator [])
      = Some ("// Code generated by " +:+ dquote +:+ "modeldecoder/generator"
                +:+ dquote +:+ ". DO NOT EDIT." +:+ nl
                +:+ nl
                +:+ "package model" +:+ nl
                +:+ nl
                +:+ "import (" +:+ nl
                +:+ tab +:+ dquote +:+ "fmt" +:+ dquote +:+ nl
                +:+ tab +:+ dquote +:+ "encoding/json" +:+ dquote +:+ nl
                +:+ tab +:+ dquote +:+ "github.com/pkg/errors" +:+ dquote +:+ nl
                +:+ tab +:+ dquote +:+ "regexp" +:+ dquote +:+ nl
                +:+ tab +:+ dquote +:+ "unicode/utf8" +:+ dquote +:+ nl
                +:+ ")" +:+ nl
                +:+ nl
                +:+ "var (" +:+ nl
                +:+ "patternARegexp = regexp.MustCompile(patternA)" +:+ nl
                +:+ "patternBRegexp = regexp.MustCompile(patternB)" +:+ nl
                +:+ ")" +:+ nl,
              None, g').
Proof.
  split.
  - apply (proj1 (Generate_deterministic (Sample.generator [])
                    ["patternB"; "patternA"] ["patternA"; "patternB"]
                    (Sample_rangeOf _ (perm_swap _ _ _))
                    (Sample_rangeOf _ (Permutation_refl _)))).
  - eexists. vm_compute. reflexivity.
Defined.

Lemma generateValidation_short_circuit_witness :
  buf (generateValidation Sample.tag_ "tags"
         (Sample.generator [Sample.root])).2
  = nl +:+ "func (val *tag) validate() error {" +:+ nl
       +:+ "if !val.IsSet() {" +:+ nl
       +:+ tab +:+ "return nil" +:+ nl
       +:+ "}" +:+ nl
       +:+ "// string Key" +:+ nl
       +:+ "return nil" +:+ nl
       +:+ "}" +:+ nl
  ∧ buf (generateValidation Sample.tag_ EmptyString
           (Sample.generator [Sample.root; Sample.tag_])).2
    = nl +:+ "func (val *tag) validate() error {" +:+ nl
         +:+ "// string Key" +:+ nl
         +:+ "return nil" +:+ nl
         +:+ "}" +:+ nl.
Proof.
  split.
  - rewrite (proj1 (generateValidation_short_circuit Sample.tag_ "tags"
                      (Sample.generator [Sample.root]))).
    vm_compute. reflexivity.
  - rewrite (proj1 (generateValidation_short_circuit Sample.tag_ EmptyString
                      (Sample.generator [Sample.root; Sample.tag_]))).
    vm_compute. reflexivity.
Defined.



(** C6, as the specification states it, fails on a field tagged [json:"-"]:
    the specification gives such a field no external name, [jsonName]
    names it by its lower-cased identifier. *)
Lemma jsonName_dash_still_named :
  let f := {| Name := "Secret"; Typ := GoType "string" (Other "*types.Basic");
              Exported := true; tag := [("json", "-")] |} in
  externalName f = None ∧ jsonName f = "secret" ∧
  ¬ (∀ f', externalName f' = Some (jsonName f')).
Proof.
  split; [reflexivity|]. split; [reflexivity|].
  intros Hall.
  specialize (Hall {| Name := "Secret";
                      Typ := GoType "string" (Other "*types.Basic");
                      Exported := true; tag := [("json", "-")] |}).
  discriminate Hall.
Qed.

Lemma generateValidation_unsupported_witness :
  (generateValidation
     {| name := "hooked"; fields := [Sample.fName] ++ Sample.fHook :: [] |}
     "tags" (Sample.generator [])).1
  = Some "tags.hook: unhandled type *types.Signature".
Proof.
  exact (proj1 (generateValidation_unsupported
                  (Sample.generator []) "hooked" "tags"
                  [Sample.fName] Sample.fHook [] "*types.Signature"
                  eq_refl (or_intror eq_refl) eq_refl eq_refl)).
Defined.

Lemma generateIsSet_bare_return_witness :
  generateIsSet SampleMore.hidden EmptyString (Sample.generator []) =
    (None, Fprint (nl +:+ "func (val *hidden) IsSet() bool {" +:+ nl
                      +:+ tab +:+ "return" +:+ nl +:+ "}" +:+ nl)
             (Sample.generator [])).
Proof.
  apply (generateIsSet_bare_return SampleMore.hidden EmptyString
           (Sample.generator [])).
  - discriminate.
  - reflexivity.
Defined.

Lemma Generate_aborts_witness :
  ∃ g',
    GenerateWith 3 ["patternA"; "patternB"]
      (Sample.generator [Sample.root; Sample.broken; Sample.node])
    = Some (buf g',
            Some ("code generator: "
                    +:+ "unhandled type *types.Signature for IsSet() for 'handler'"),
            g')
    ∧ "node" ∉ processedTypes g'.
Proof.
  assert (∃ r g' tr,
            GenerateTrace 3 ["patternA"; "patternB"]
              (Sample.generator [Sample.root; Sample.broken; Sample.node])
            = Some (r, g', tr)
            ∧ r = Some "unhandled type *types.Signature for IsSet() for 'handler'"
            ∧ processedTypes g' = {[ "broken" ]} ∪ ({[ "tag" ]} ∪ ({[ "root" ]} ∪ ∅)))
    as (r & g' & tr & Hrun & -> & Hp).
  { vm_compute. do 3 eexists. split; [reflexivity|]. split; reflexivity. }
  exists g'. split.
  - exact (proj1 (proj2 (Generate_aborts 3 ["patternA"; "patternB"]
                           (Sample.generator
                              [Sample.root; Sample.broken; Sample.node]))
                        _ _ _ Hrun)).
  - rewrite Hp. set_solver.
Defined.

(** C9, as the specification states it, fails on a run whose root has a
    field of function type: [Generate] returns an error and, with it, a
    buffer that holds the header and the beginning of the [IsSet] method
    of that root. *)
Lemma Generate_error_with_partial_buffer :
  (∃ g',
     Generate ["patternA"; "patternB"] (Sample.generator [Sample.broken])
     = Some ("// Code generated by " +:+ dquote +:+ "modeldecoder/generator"
               +:+ dquote +:+ ". DO NOT EDIT." +:+ nl
               +:+ nl
               +:+ "package model" +:+ nl
               +:+ nl
               +:+ "import (" +:+ nl
               +:+ tab +:+ dquote +:+ "fmt" +:+ dquote +:+ nl
               +:+ tab +:+ dquote +:+ "encoding/json" +:+ dquote +:+ nl
               +:+ tab +:+ dquote +:+ "github.com/pkg/errors" +:+ dquote +:+ nl
               +:+ tab +:+ dquote +:+ "regexp" +:+ dquote +:+ nl
               +:+ tab +:+ dquote +:+ "unicode/utf8" +:+ dquote +:+ nl
               +:+ ")" +:+ nl
               +:+ nl
               +:+ "var (" +:+ nl
               +:+ "patternARegexp = regexp.MustCompile(patternA)" +:+ nl
               +:+ "patternBRegexp = regexp.MustCompile(patternB)" +:+ nl
               +:+ ")" +:+ nl
               +:+ nl +:+ "func (val *broken) IsSet() bool {" +:+ nl
               +:+ tab +:+ "return val.Name.IsSet()",
             Some ("code generator: unhandled type *types.Signature "
                     +:+ "for IsSet() for 'handler'"),
             g'))
  ∧ ¬ (∀ order g out err g',
         Generate order g = Some (out, Some err, g') → out = buf g).
Proof.
  assert (∃ out g',
     Generate ["patternA"; "patternB"] (Sample.generator [Sample.broken])
     = Some (out,
             Some ("code generator: unhandled type *types.Signature "
                     +:+ "for IsSet() for 'handler'"),
             g') ∧ out ≠ EmptyString) as (out & g' & Hrun & Hout).
  { vm_compute. do 2 eexists. split; [reflexivity|discriminate]. }
  split.
  - eexists. vm_compute. reflexivity.
  - intros Hclaim. apply Hclaim in Hrun. by apply Hout.
Qed.

(** ** Further properties *)

Lemma generateIsSet_or_of_exported_witness :
  (generateIsSet Sample.root EmptyString (Sample.generator [])).2
  = Fprint (nl +:+ "func (val *root) IsSet() bool {" +:+ nl
               +:+ tab +:+ "return val.Name.IsSet() || len(val.Tags) > 0"
               +:+ " || len(val.Labels) > 0 || len(val.Names) > 0"
               +:+ nl +:+ "}" +:+ nl) (Sample.generator []).
Proof.
  assert (generateIsSet Sample.root EmptyString (Sample.generator [])
          = (None, (generateIsSet Sample.root EmptyString
                      (Sample.generator [])).2)) as Hrun
    by (vm_compute; reflexivity).
  destruct (generateIsSet_or_of_exported Sample.root EmptyString
              (Sample.generator []) _ Hrun) as [Heq _].
  rewrite Heq. vm_compute. reflexivity.
Defined.

Lemma NewCodeGenerator_roots_witness :
  ∃ g, NewCodeGenerator Sample.package ["model.root"; "model.node"] = inr g
       ∧ rootObjs g = [Sample.root; Sample.node].
Proof.
  destruct (NewCodeGenerator_roots Sample.package ["model.root"; "model.node"])
    as (g & Hg & _ & _ & _ & Hroots).
  { repeat constructor; vm_compute; by eexists. }
  exists g. split; [exact Hg|].
  vm_compute in Hg. injection Hg as <-. reflexivity.
Defined.

Lemma NewCodeGenerator_unknown_root_witness :
  NewCodeGenerator Sample.package (["model.root"] ++ "model.ghost" :: ["nowhere"])
  = inl "object with root key model.ghost not found".
Proof.
  apply (NewCodeGenerator_unknown_root Sample.package ["model.root"]
           "model.ghost" ["nowhere"]).
  - repeat constructor. vm_compute. by eexists.
  - vm_compute. reflexivity.
Defined.

Lemma parseTag_parts_witness :
  Join "," (parseTag (tag Sample.fTags) "json") = "tags,omitempty".
Proof.
  apply (parseTag_parts (tag Sample.fTags) "json" "tags,omitempty").
  - reflexivity.
  - discriminate.
Defined.

Lemma parseTag_empty_iff_witness :
  parseTag [("json", "-")] "json" = [].
Proof.
  apply (proj2 (parseTag_empty_iff [("json", "-")] "json")).
  right. reflexivity.
Defined.

Lemma generateIsSet_succeeds_iff_witness :
  (generateIsSet Sample.root EmptyString (Sample.generator [])).1 = None.
Proof.
  apply (proj2 (generateIsSet_succeeds_iff Sample.root EmptyString
                  (Sample.generator []))).
  split; [discriminate|]. repeat constructor.
Defined.

Lemma generateIsSet_unsupported_witness :
  generateIsSet Sample.broken "tags" (Sample.generator []) =
    (Some "unhandled type *types.Signature for IsSet() for 'tags.handler'",
     Fprint (nl +:+ "func (val *broken) IsSet() bool {" +:+ nl
                +:+ tab +:+ "return val.Name.IsSet()")
       (Sample.generator [])).
Proof.
  etrans.
  - apply (generateIsSet_unsupported Sample.broken "tags" (Sample.generator [])
             [Sample.fName] Sample.fHandler [] "*types.Signature");
      [reflexivity|repeat constructor|reflexivity|reflexivity].
  - vm_compute. reflexivity.
Defined.

Lemma generateReset_succeeds_iff_witness :
  generateReset {| name := "empty"; fields := [] |} EmptyString
    (Sample.generator [])
  = (None, Fprint (nl +:+ "func (val *empty) Reset() {" +:+ nl
                      +:+ "}" +:+ nl) (Sample.generator [])).
Proof.
  etrans.
  - apply (proj2 (generateReset_succeeds_iff
                    {| name := "empty"; fields := [] |}
                    EmptyString (Sample.generator []))).
    reflexivity.
  - vm_compute. reflexivity.
Defined.

Lemma generateReset_unsupported_witness :
  generateReset Sample.broken EmptyString (Sample.generator []) =
    (Some "unhandled type *types.Signature for Reset() for 'handler'",
     Fprint (nl +:+ "func (val *broken) Reset() {" +:+ nl
                +:+ "val.Name.Reset()" +:+ nl) (Sample.generator [])).
Proof.
  etrans.
  - apply (generateReset_unsupported Sample.broken EmptyString
             (Sample.generator []) [Sample.fName] Sample.fHandler []
             "*types.Signature");
      [reflexivity|repeat constructor|reflexivity|reflexivity].
  - vm_compute. reflexivity.
Defined.

Lemma selectValidation_nullable_witness :
  selectValidation (Sample.generator [Sample.root]) Sample.fKey
  = selectValidation (Sample.generator []) Sample.fName.
Proof.
  refine (proj1 (selectValidation_nullable (Sample.generator [])
                   (Sample.generator [Sample.root]) Sample.fName Sample.fKey
                   _ _)); reflexivity.
Defined.

Lemma selectValidation_float64_witness :
  selectValidation (Sample.generator []) SampleMore.fDuration
  = inl (Sample.rule "int", false).
Proof.
  etrans.
  - apply (selectValidation_float64 (Sample.generator []) SampleMore.fDuration);
      [reflexivity|discriminate].
  - reflexivity.
Defined.

Lemma generateValidation_rule_error_witness :
  (@generateValidation Sample.asciiStrings SampleMore.rejectingMaps
     {| name := "root"; fields := [Sample.fName; Sample.fTags]
                                  ++ Sample.fLabels :: [Sample.fNames] |}
     "span" (Sample.generator [])).1
  = Some "span.labels: unhandled tag rule 'max'".
Proof.
  apply (@generateValidation_rule_error Sample.asciiStrings
           SampleMore.rejectingMaps
           (Sample.generator []) "root" "span"
           [Sample.fName; Sample.fTags] Sample.fLabels [Sample.fNames]
           (@generateMapValidation SampleMore.rejectingMaps) true
           ("// map Labels" +:+ nl) "unhandled tag rule 'max'").
  - vm_compute. reflexivity.
  - left. reflexivity.
  - reflexivity.
  - reflexivity.
Defined.

Lemma generate_append_only_witness :
  let g := Sample.generator [] in
  let g' := from_option snd g (generate 3 Sample.root EmptyString g) in
  processedTypes g ⊆ processedTypes g' ∧ parsed g' = parsed g.
Proof.
  intros g g'.
  destruct (generate_append_only 3 Sample.root EmptyString g None g')
    as (_ & Hp & Hq & _).
  - vm_compute. reflexivity.
  - split; [exact Hp|exact Hq].
Defined.

Lemma generate_again_is_silent_witness :
  let g := Sample.generator [] in
  let g' := from_option snd g (generate 1 Sample.broken EmptyString g) in
  generate 1 Sample.broken "retry" g' = Some (None, g').
Proof.
  intros g g'.
  refine (proj2 (generate_again_is_silent 1 Sample.broken EmptyString g
                   (Some "unhandled type *types.Signature for IsSet() for 'handler'")
                   g' _) 0 "retry").
  vm_compute. reflexivity.
Defined.

Lemma Generate_second_run_witness :
  let g := Sample.generator [Sample.root] in
  let order := ["patternA"; "patternB"] in
  let g' := from_option snd g
              (generateRoots (generate 3) (rootObjs g) (writeHeader order g)) in
  GenerateWith 1 order g'
  = Some (buf g' +:+ fileHeader "model"
            +:+ patternVars (sortKeys order) +:+ varEnd,
          None, writeHeader order g').
Proof.
  intros g order g'.
  apply (Generate_second_run 3 order g (buf g') g' 0 order).
  vm_compute. reflexivity.
Defined.

Lemma generate_methods_in_order_witness :
  let g := Sample.generator [Sample.root] in
  let g' := from_option snd g (generate 1 Sample.tag_ "tags" g) in
  ∃ rules rest,
    buf g' = buf g
      +:+ (isSetHeader "tag" +:+ " val.Key.IsSet()" +:+ isSetEnd)
      +:+ (resetHeader "tag" +:+ resetCall "Key" +:+ resetEnd)
      +:+ (validateHeader "tag" +:+ shortCircuit +:+ rules +:+ validateEnd)
      +:+ rest.
Proof.
  intros g g'.
  destruct (generate_methods_in_order 0 Sample.tag_ "tags" g g')
    as (rules & rest & Hbuf).
  - simpl. apply not_elem_of_empty.
  - vm_compute. reflexivity.
  - exists rules, rest. exact Hbuf.
Defined.

Lemma Sample_declared (t : structType) :
  declared Sample.package t →
  t = Sample.root ∨ t = Sample.tag_ ∨ t = Sample.node ∨ t = Sample.broken.
Proof.
  intros [k Hk]. unfold Sample.package in Hk. simpl in Hk.
  apply lookup_insert_Some in Hk as [[_ <-]|[_ Hk]]; [auto|].
  apply lookup_insert_Some in Hk as [[_ <-]|[_ Hk]]; [auto|].
  apply lookup_insert_Some in Hk as [[_ <-]|[_ Hk]]; [auto|].
  apply lookup_insert_Some in Hk as [[_ <-]|[_ Hk]]; [auto|].
  by rewrite lookup_empty in Hk.
Qed.

Lemma Sample_wellNamed : wellNamed Sample.package.
Proof.
  intros t1 t2 H1%Sample_declared H2%Sample_declared.
  destruct H1 as [->|[->|[->| ->]]], H2 as [->|[->|[->| ->]]];
    simpl; intros Hn; try reflexivity; discriminate Hn.
Qed.

Lemma mapPackage_wellNamed : wellNamed SampleMore.mapPackage.
Proof.
  assert (∀ t, declared SampleMore.mapPackage t →
               t = SampleMore.labelled ∨ t = SampleMore.leaf) as Hd.
  { intros t [k Hk]. unfold SampleMore.mapPackage in Hk. simpl in Hk.
    apply lookup_insert_Some in Hk as [[_ <-]|[_ Hk]]; [auto|].
    apply lookup_insert_Some in Hk as [[_ <-]|[_ Hk]]; [auto|].
    by rewrite lookup_empty in Hk. }
  intros t1 t2 H1%Hd H2%Hd.
  destruct H1 as [->| ->], H2 as [->| ->];
    simpl; intros Hn; try reflexivity; discriminate Hn.
Qed.

(** A type that only a map leads to is processed. *)
Lemma Generate_processes_all_reachable_witness :
  let g := SampleMore.mapGenerator in
  let g' := from_option snd g
              (generateRoots (generate 4) (rootObjs g) (writeHeader [] g)) in
  "leaf" ∈ processedTypes g'.
Proof.
  intros g g'.
  apply (Generate_processes_all_reachable 4 [] g (buf g') g'
           SampleMore.labelled SampleMore.leaf).
  - exact mapPackage_wellNamed.
  - intros r ->%list_elem_of_singleton. exists "model.labelled". reflexivity.
  - reflexivity.
  - vm_compute. reflexivity.
  - apply list_elem_of_singleton. reflexivity.
  - apply rtc_once.
    exists (Sample.field "ByName"
              (GoType "map[string]model.leaf" (Map SampleMore.tLeaf)) true []).
    split; [left|reflexivity].
Defined.

Lemma Generate_processes_only_reachable_witness :
  let g := Sample.generator [Sample.root] in
  let order := ["patternA"; "patternB"] in
  let g' := from_option snd g
              (generateRoots (generate 4) (rootObjs g) (writeHeader order g)) in
  "tag" ∈ processedTypes g
  ∨ ∃ rt t, rt ∈ rootObjs g ∧ rtc (refers (parsed g)) rt t ∧ name t = "tag".
Proof.
  intros g order g'.
  apply (Generate_processes_only_reachable 4 order g (buf g') None g' "tag").
  - vm_compute. reflexivity.
  - vm_compute. reflexivity.
Defined.

Lemma sortKeys_keys_witness :
  length (sortKeys ["patternB"; "patternA"])
  = size (patternVariables Sample.package).
Proof.
  apply (sortKeys_keys (patternVariables Sample.package)
           ["patternB"; "patternA"]).
  unfold rangeOf. vm_compute. apply perm_swap.
Defined.


End Examples.
